(** * BrownFi pool math: a shallow embedding of the quoting formulas

    The two classes [BrownFiPoolMath] (V1) and [BrownFiV2PoolMath] (V2) are
    pure functions over JavaScript [bigint] values.  A [bigint] is an
    unbounded signed integer, so it is embedded as [Z]:

    - [a / b] on [bigint] truncates toward zero and raises a [RangeError]
      when [b] is [0n]: this is [Z.quot] behind a zero test;
    - [a % b] takes the sign of the dividend: this is [Z.rem];
    - [throw new Error(msg)] ends the call with that message.

    Calls therefore return an [outcome]: a value or the exception raised. *)

From Stdlib Require Import ZArith Lia Bool String List.
From Stdlib Require Import Floats.SpecFloat.

Local Open Scope string_scope.
Local Open Scope Z_scope.

(** ** Exceptions and outcomes *)

Inductive exn : Type :=
| Error (message : string)
| RangeError.

(** [OutOfFuel] is not a JavaScript outcome: it marks a [while] loop of the
    model that used up its iteration budget.  [sqrt_never_out_of_fuel] below
    shows that the only loop of the program never does. *)
Inductive outcome (A : Type) : Type :=
| Return (a : A)
| Throw (e : exn)
| OutOfFuel.

Arguments Return {A} a.
Arguments Throw {A} e.
Arguments OutOfFuel {A}.

Definition bind {A B : Type} (m : outcome A) (k : A -> outcome B) : outcome B :=
  match m with
  | Return a => k a
  | Throw e => Throw e
  | OutOfFuel => OutOfFuel
  end.

Declare Scope js_scope.
Delimit Scope js_scope with js.
Notation "x <- m ;; k" := (bind m (fun x => k))
  (at level 61, m at next level, right associativity) : js_scope.
Notation "' ( x , y ) <- m ;; k" := (bind m (fun '(x, y) => k))
  (at level 61, x name, y name, m at next level, right associativity) : js_scope.
Local Open Scope js_scope.

(** [a / b] on bigint. *)
Definition bigdiv (a b : Z) : outcome Z :=
  if b =? 0 then Throw RangeError else Return (Z.quot a b).

(** [a % b] on bigint. *)
Definition bigrem (a b : Z) : outcome Z :=
  if b =? 0 then Throw RangeError else Return (Z.rem a b).

(** [Number(b)] for a bigint [b]: the nearest IEEE-754 double, ties to even. *)
Definition Number (b : Z) : spec_float := binary_normalize 53 1024 b 0 false.

(** [x / y] on numbers. *)
Definition numdiv (x y : spec_float) : spec_float := SFdiv 53 1024 x y.

(** ** V1: [BrownFiPoolMath] *)

Module BrownFiPoolMath.

(** Modelled from the spec: the interfaces [BasePoolState] and
    [BrownFiBasePoolState] are declared outside the files at hand.  The base
    fields ([address], [token0], [token1], [reserve0], [reserve1]) are those
    of the data model and of the pool objects the test suites build; the
    curve parameters are the fields of [BrownFiPoolState]. *)
Record BrownFiPoolState : Type := {
  address : string;
  token0 : string;
  token1 : string;
  reserve0 : Z;
  reserve1 : Z;
  kappa : Z;
  fee : Z;
  oraclePrice : Z;
  decimalShift : Z;
  qti : Z
}.

Definition FEE_DENOMINATOR : Z := 10000.
Definition Q128 : Z := Z.shiftl 1 128.

Definition INSUFFICIENT_OUTPUT_AMOUNT : exn :=
  Error "BrownFiV1Library: INSUFFICIENT_OUTPUT_AMOUNT".
Definition INSUFFICIENT_LIQUIDITY : exn :=
  Error "BrownFiV1Library: INSUFFICIENT_LIQUIDITY".

Definition swapExactInput (pool : BrownFiPoolState) (zeroToOne : bool)
    (amountIn : Z) : outcome Z :=
  Return amountIn.

Definition mulDivRoundingUp (a b denominator : Z) : outcome Z :=
  let product := a * b in
  result <- bigdiv product denominator ;;
  rem <- bigrem product denominator ;;
  if 0 <? rem then Return (result + 1) else Return result.

Definition swapExactOutput (pool : BrownFiPoolState) (zeroToOne : bool)
    (amountOut : Z) : outcome Z :=
  let '(reserveIn, reserveOut) :=
    if zeroToOne then (reserve0 pool, reserve1 pool)
    else (reserve1 pool, reserve0 pool) in
  let oPrice := oraclePrice pool in
  (* [pool.kappa || this.Q128]: [0n] is falsy *)
  let kappa := if kappa pool =? 0 then Q128 else kappa pool in
  if amountOut <=? 0 then Throw INSUFFICIENT_OUTPUT_AMOUNT else
  if (reserveIn <=? 0) || (reserveOut <=? 0) then Throw INSUFFICIENT_LIQUIDITY else
  amountOutWithFee <-
    mulDivRoundingUp amountOut FEE_DENOMINATOR (FEE_DENOMINATOR - fee pool) ;;
  if amountOutWithFee * 10 >=? reserveOut * 9 then Throw INSUFFICIENT_OUTPUT_AMOUNT else
  r <- mulDivRoundingUp kappa amountOutWithFee (reserveOut - amountOutWithFee) ;;
  if zeroToOne then
    avgPrice <- mulDivRoundingUp (Q128 * 2 + r) Q128 (oPrice * 2) ;;
    mulDivRoundingUp amountOutWithFee avgPrice Q128
  else
    avgPrice <- mulDivRoundingUp oPrice (Q128 * 2 + r) (Q128 * 2) ;;
    mulDivRoundingUp amountOutWithFee avgPrice Q128.

Definition spotPriceWithoutFee (pool : BrownFiPoolState) (zeroToOne : bool)
    : outcome spec_float :=
  Return (Number 1).

End BrownFiPoolMath.

(** ** V2: [BrownFiV2PoolMath] *)

Module BrownFiV2PoolMath.

(** [BrownFiV2PoolState], with the base fields of [BasePoolState] as for V1.
    [fee], [token0Decimals] and [token1Decimals] are JavaScript numbers that
    the code passes to [BigInt(...)]; they are integer-valued and embedded
    as [Z]. *)
Record BrownFiV2PoolState : Type := {
  address : string;
  token0 : string;
  token1 : string;
  reserve0 : Z;
  reserve1 : Z;
  kappa : Z;
  lambda : Z;
  fee : Z;
  token0Decimals : Z;
  token1Decimals : Z;
  price0 : Z;
  price1 : Z;
  updateFee : Z;
  updateFeedData : string
}.

Definition PRECISION : Z := 100000000.
Definition DECIMALS : Z := 18.
Definition Q64 : Z := Z.shiftl 1 64.

Definition INSUFFICIENT_INPUT_AMOUNT : exn :=
  Error "BrownFiV2Library: INSUFFICIENT_INPUT_AMOUNT".
Definition INSUFFICIENT_OUTPUT_AMOUNT : exn :=
  Error "BrownFiV2Library: INSUFFICIENT_OUTPUT_AMOUNT".
Definition INSUFFICIENT_LIQUIDITY : exn :=
  Error "BrownFiV2Library: INSUFFICIENT_LIQUIDITY".
Definition MAX_80_PERCENT_OF_RESERVE : exn :=
  Error "BrownFiV2Library: MAX_80_PERCENT_OF_RESERVE".

Definition mulDiv (a b denominator : Z) : outcome Z :=
  bigdiv (a * b) denominator.

(** The body of [while (y < x) { x = y; y = (value / x + x) / 2n; }],
    followed by [return x]. *)
Fixpoint sqrt_loop (fuel : nat) (value x y : Z) : outcome Z :=
  match fuel with
  | O => OutOfFuel
  | S fuel' =>
      if y <? x then
        let x' := y in
        q <- bigdiv value x' ;;
        y' <- bigdiv (q + x') 2 ;;
        sqrt_loop fuel' value x' y'
      else Return x
  end.

(** Iteration budget of the model for [sqrt value]. *)
Definition sqrt_fuel (value : Z) : nat := S (S (S (Z.to_nat (Z.log2 value)))).

Definition sqrt (value : Z) : outcome Z :=
  if value =? 0 then Return 0 else
  let x := value in
  y <- bigdiv (value + 1) 2 ;;
  sqrt_loop (sqrt_fuel value) value x y.

Definition parseRawToDefaultDecimals (tokenDecimals amount : Z) : outcome Z :=
  let tokenDecimalsBig := tokenDecimals in
  if tokenDecimalsBig >? DECIMALS
  then bigdiv amount (10 ^ (tokenDecimalsBig - DECIMALS))
  else Return (amount * 10 ^ (DECIMALS - tokenDecimalsBig)).

Definition parseDefaultDecimalsToRaw (tokenDecimals amount : Z) : outcome Z :=
  let tokenDecimalsBig := tokenDecimals in
  if tokenDecimalsBig >? DECIMALS
  then Return (amount * 10 ^ (tokenDecimalsBig - DECIMALS))
  else bigdiv amount (10 ^ (DECIMALS - tokenDecimalsBig)).

Definition getSkewnessPrice (priceA priceB reserveA reserveB lambda : Z)
    : outcome (Z * Z) :=
  if lambda =? 0 then Return (priceA, priceB) else
  let reserveAPrice := reserveA * priceA in
  let reserveBPrice := reserveB * priceB in
  let reservePriceDiff :=
    if reserveAPrice >=? reserveBPrice
    then reserveAPrice - reserveBPrice
    else reserveBPrice - reserveAPrice in
  let reservePriceSum := reserveAPrice + reserveBPrice in
  s <- mulDiv reservePriceDiff lambda reservePriceSum ;;
  let q64PlusS := Q64 + s in
  let q64MinusS := Q64 - s in
  if reserveAPrice >=? reserveBPrice then
    a <- mulDiv priceA q64MinusS Q64 ;;
    b <- mulDiv priceB q64PlusS Q64 ;;
    Return (a, b)
  else
    a <- mulDiv priceA q64PlusS Q64 ;;
    b <- mulDiv priceB q64MinusS Q64 ;;
    Return (a, b).

Definition computeLeftNumerator (amountIn priceIn priceOut reserveOut : Z) : Z :=
  priceOut * reserveOut + priceIn * amountIn.

Definition computeLeftSqrt (amountIn priceIn priceOut reserveOut : Z) : outcome Z :=
  u <- mulDiv amountIn priceIn Q64 ;;
  v <- mulDiv reserveOut priceOut Q64 ;;
  temp <-
    (if u >? v then
       u1 <- mulDiv amountIn priceIn Q64 ;;
       v1 <- mulDiv reserveOut priceOut Q64 ;;
       Return (u1 - v1)
     else
       v1 <- mulDiv reserveOut priceOut Q64 ;;
       u1 <- mulDiv amountIn priceIn Q64 ;;
       Return (v1 - u1)) ;;
  Return (temp * temp).

Definition computeRightSqrt (amountIn priceIn priceOut reserveOut k : Z) : outcome Z :=
  a <- mulDiv (priceIn * priceOut) k (Q64 * Q64) ;;
  b <- mulDiv (reserveOut * amountIn) 2 Q64 ;;
  Return (a * b).

Definition swapExactInput (pool : BrownFiV2PoolState) (zeroToOne : bool)
    (amountIn : Z) : outcome Z :=
  if amountIn <=? 0 then Throw INSUFFICIENT_INPUT_AMOUNT else
  let '(reserveIn, reserveOut) :=
    if zeroToOne then (reserve0 pool, reserve1 pool)
    else (reserve1 pool, reserve0 pool) in
  let '(tokenInDecimals, tokenOutDecimals) :=
    if zeroToOne then (token0Decimals pool, token1Decimals pool)
    else (token1Decimals pool, token0Decimals pool) in
  if reserveOut <=? 0 then Throw INSUFFICIENT_LIQUIDITY else
  parsedAmountIn <- parseRawToDefaultDecimals tokenInDecimals amountIn ;;
  parsedReserveOut <- parseRawToDefaultDecimals tokenOutDecimals reserveOut ;;
  parsedReserve0 <- parseRawToDefaultDecimals (token0Decimals pool) (reserve0 pool) ;;
  parsedReserve1 <- parseRawToDefaultDecimals (token1Decimals pool) (reserve1 pool) ;;
  '(priceIn, priceOut) <-
    getSkewnessPrice
      (if zeroToOne then price0 pool else price1 pool)
      (if zeroToOne then price1 pool else price0 pool)
      parsedReserve0 parsedReserve1 (lambda pool) ;;
  _amountIn <- mulDiv parsedAmountIn PRECISION (PRECISION + fee pool) ;;
  amountOut <-
    (if kappa pool =? 2 * Q64 then
       mulDiv (parsedReserveOut * _amountIn) priceIn
              (priceOut * parsedReserveOut + _amountIn * priceIn)
     else
       let leftNumerator :=
         computeLeftNumerator _amountIn priceIn priceOut parsedReserveOut in
       leftSqrt <- computeLeftSqrt _amountIn priceIn priceOut parsedReserveOut ;;
       rightSqrt <-
         computeRightSqrt _amountIn priceIn priceOut parsedReserveOut (kappa pool) ;;
       denominator <- mulDiv priceOut (2 * Q64 - kappa pool) Q64 ;;
       sqrtTerm <- sqrt (leftSqrt + rightSqrt) ;;
       bigdiv (leftNumerator - Q64 * sqrtTerm) denominator) ;;
  parseDefaultDecimalsToRaw tokenOutDecimals amountOut.

Definition swapExactOutput (pool : BrownFiV2PoolState) (zeroToOne : bool)
    (amountOut : Z) : outcome Z :=
  if amountOut <=? 0 then Throw INSUFFICIENT_OUTPUT_AMOUNT else
  let '(reserveIn, reserveOut) :=
    if zeroToOne then (reserve0 pool, reserve1 pool)
    else (reserve1 pool, reserve0 pool) in
  let '(tokenInDecimals, tokenOutDecimals) :=
    if zeroToOne then (token0Decimals pool, token1Decimals pool)
    else (token1Decimals pool, token0Decimals pool) in
  if reserveOut <=? 0 then Throw INSUFFICIENT_LIQUIDITY else
  if amountOut * 10 >=? reserveOut * 8 then Throw MAX_80_PERCENT_OF_RESERVE else
  parsedAmountOut <- parseRawToDefaultDecimals tokenOutDecimals amountOut ;;
  parsedReserveOut <- parseRawToDefaultDecimals tokenOutDecimals reserveOut ;;
  parsedReserve0 <- parseRawToDefaultDecimals (token0Decimals pool) (reserve0 pool) ;;
  parsedReserve1 <- parseRawToDefaultDecimals (token1Decimals pool) (reserve1 pool) ;;
  '(priceIn, priceOut) <-
    getSkewnessPrice
      (if zeroToOne then price0 pool else price1 pool)
      (if zeroToOne then price1 pool else price0 pool)
      parsedReserve0 parsedReserve1 (lambda pool) ;;
  priceImpact <-
    mulDiv (kappa pool * Q64) parsedAmountOut
           (Q64 * (parsedReserveOut - parsedAmountOut)) ;;
  inner <- mulDiv priceOut (priceImpact + Q64 * 2) priceIn ;;
  amountIn <- mulDiv parsedAmountOut inner (Q64 * 2) ;;
  amountIn' <- mulDiv amountIn (PRECISION + fee pool) PRECISION ;;
  parseDefaultDecimalsToRaw tokenInDecimals amountIn'.

Definition spotPriceWithoutFee (pool : BrownFiV2PoolState) (zeroToOne : bool)
    : outcome spec_float :=
  parsedReserve0 <- parseRawToDefaultDecimals (token0Decimals pool) (reserve0 pool) ;;
  parsedReserve1 <- parseRawToDefaultDecimals (token1Decimals pool) (reserve1 pool) ;;
  '(price0, price1) <-
    getSkewnessPrice (price0 pool) (price1 pool)
      parsedReserve0 parsedReserve1 (lambda pool) ;;
  if zeroToOne then Return (numdiv (Number price0) (Number price1))
  else Return (numdiv (Number price1) (Number price0)).

End BrownFiV2PoolMath.

Module V1 := BrownFiPoolMath.
Module V2 := BrownFiV2PoolMath.

(** ** Reference pool states of the test suites *)

Definition zeroAddress : string := "0x0000000000000000000000000000000000000000".

(** [parseEther("1")]. *)
Definition ether : Z := 10 ^ 18.

Definition v1_pool (reserve0 reserve1 kappa fee oraclePrice : Z)
    : V1.BrownFiPoolState := {|
  V1.address := zeroAddress;
  V1.token0 := zeroAddress;
  V1.token1 := zeroAddress;
  V1.reserve0 := reserve0;
  V1.reserve1 := reserve1;
  V1.kappa := kappa;
  V1.fee := fee;
  V1.oraclePrice := oraclePrice;
  V1.decimalShift := 0;
  V1.qti := 0
|}.

Definition v2_pool (reserve0 reserve1 kappa lambda fee
    token0Decimals token1Decimals price0 price1 : Z) : V2.BrownFiV2PoolState := {|
  V2.address := zeroAddress;
  V2.token0 := zeroAddress;
  V2.token1 := zeroAddress;
  V2.reserve0 := reserve0;
  V2.reserve1 := reserve1;
  V2.kappa := kappa;
  V2.lambda := lambda;
  V2.fee := fee;
  V2.token0Decimals := token0Decimals;
  V2.token1Decimals := token1Decimals;
  V2.price0 := price0;
  V2.price1 := price1;
  V2.updateFee := 0;
  V2.updateFeedData := "0x"
|}.

Definition v1_reference_pool : V1.BrownFiPoolState :=
  v1_pool (100 * ether) (200 * ether) (2 * V1.Q128) 25 (2 * V1.Q128).

Definition v2_reference_pool : V2.BrownFiV2PoolState :=
  v2_pool (100 * ether) (200 * ether) (2 * V2.Q64) 0 250000 18 18
          (2 * V2.Q64) (1 * V2.Q64).

(** Variations of the reference pools used as concrete inputs below. *)

(** The oracle has no price yet. *)
Definition v1_unpriced_pool : V1.BrownFiPoolState :=
  v1_pool (100 * ether) (200 * ether) (2 * V1.Q128) 25 0.

(** A fee above the fee denominator, on a pool of one unit each. *)
Definition v1_overcharged_pool : V1.BrownFiPoolState :=
  v1_pool 1 1 (2 * V1.Q128) 30000 (2 * V1.Q128).

(** The input side (token0) is empty. *)
Definition v2_one_sided_pool : V2.BrownFiV2PoolState :=
  v2_pool 0 (200 * ether) (2 * V2.Q64) 0 250000 18 18 (2 * V2.Q64) (1 * V2.Q64).

(** token1 has 19 decimals and a reserve of two units. *)
Definition v2_19_decimals_pool : V2.BrownFiV2PoolState :=
  v2_pool (100 * ether) 2 (2 * V2.Q64) 0 250000 18 19 (2 * V2.Q64) (1 * V2.Q64).

(** Curvature just under [2*Q64], one unit of token1, no fee, no skew. *)
Definition v2_steep_pool : V2.BrownFiV2PoolState :=
  v2_pool 1 1 (2 * V2.Q64 - 3) 0 0 18 18 V2.Q64 (V2.Q64 - 1).

(** The reference pool with a skew sensitivity of one half: its notional
    values are equal ([100e18 * 2*Q64 = 200e18 * Q64]). *)
Definition v2_balanced_skewed_pool : V2.BrownFiV2PoolState :=
  v2_pool (100 * ether) (200 * ether) (2 * V2.Q64) (V2.Q64 / 2) 250000 18 18
          (2 * V2.Q64) (1 * V2.Q64).

(** One token on each side at equal prices, curvature [Q64], no fee, no skew. *)
Definition v2_even_pool : V2.BrownFiV2PoolState :=
  v2_pool ether ether V2.Q64 0 0 18 18 V2.Q64 V2.Q64.

(** The doubles [2.0] and [0.5]: mantissa [2^52] with exponents [-51] and [-53]. *)
Definition double_2_0 : spec_float := S754_finite false 4503599627370496 (-51).
Definition double_0_5 : spec_float := S754_finite false 4503599627370496 (-53).

(** ** The formulas of the specification

    These definitions follow the words of the specification, on mathematical
    integers: [/] is the floor division of [Z], and [Z.sqrt] the floor of the
    square root.  They are what the code is compared with. *)

Module Spec.

(** floor of [(a*b)/d] *)
Definition mulDivFloor (a b d : Z) : Z := (a * b) / d.

(** ceiling of [(a*b)/d] *)
Definition mulDivCeil (a b d : Z) : Z := - ((- (a * b)) / d).

(** floor of the square root of [v] *)
Definition isqrtFloor (v : Z) : Z := Z.sqrt v.

Definition toCanonicalScale (decimals amount : Z) : Z :=
  if 18 <? decimals then amount / 10 ^ (decimals - 18)
  else amount * 10 ^ (18 - decimals).

Definition fromCanonicalScale (decimals amount : Z) : Z :=
  if 18 <? decimals then amount * 10 ^ (decimals - 18)
  else amount / 10 ^ (18 - decimals).

(** The price-skew adjuster of section 4.2. *)
Definition skewPrices (priceA priceB reserveA reserveB lambda : Z) : Z * Z :=
  if lambda =? 0 then (priceA, priceB) else
  let valueA := reserveA * priceA in
  let valueB := reserveB * priceB in
  let diff := Z.abs (valueA - valueB) in
  let sum := valueA + valueB in
  let s := mulDivFloor diff lambda sum in
  if valueB <=? valueA
  then (priceA * (V2.Q64 - s) / V2.Q64, priceB * (V2.Q64 + s) / V2.Q64)
  else (priceA * (V2.Q64 + s) / V2.Q64, priceB * (V2.Q64 - s) / V2.Q64).

(** The curve of V2 [quoteByInput] on the canonical scale.  The operands of
    three divisions can be negative: the one of [denominator], the one by
    [denominator] and the final shrinking; their rounding is the parameter
    [div].  With [div := Z.div] this is the formula with floor division
    throughout. *)
Section Rounding.

Variable div : Z -> Z -> Z.

Definition canonicalOutDivisor (kappa reserveOut effIn priceIn priceOut : Z) : Z :=
  if kappa =? 2 * V2.Q64
  then priceOut * reserveOut + effIn * priceIn
  else div (priceOut * (2 * V2.Q64 - kappa)) V2.Q64.

Definition canonicalOut (kappa reserveOut effIn priceIn priceOut : Z) : Z :=
  if kappa =? 2 * V2.Q64 then
    mulDivFloor (reserveOut * effIn) priceIn
                (priceOut * reserveOut + effIn * priceIn)
  else
    let leftNumerator := priceOut * reserveOut + priceIn * effIn in
    let leftSqrt :=
      Z.abs (mulDivFloor effIn priceIn V2.Q64
             - mulDivFloor reserveOut priceOut V2.Q64) ^ 2 in
    let rightSqrt :=
      mulDivFloor (priceIn * priceOut) kappa (V2.Q64 ^ 2)
      * mulDivFloor (reserveOut * effIn) 2 V2.Q64 in
    let denominator := div (priceOut * (2 * V2.Q64 - kappa)) V2.Q64 in
    div (leftNumerator - V2.Q64 * isqrtFloor (leftSqrt + rightSqrt)) denominator.

Definition fromCanonicalScaleWith (decimals amount : Z) : Z :=
  if 18 <? decimals then amount * 10 ^ (decimals - 18)
  else div amount (10 ^ (18 - decimals)).

End Rounding.

(** Steps 4 to 6 of V2 [quoteByOutput], on the canonical scale. *)
Definition canonicalIn (kappa fee amountOutCanon reserveOutCanon
    priceIn priceOut : Z) : Z :=
  let priceImpact :=
    mulDivFloor (kappa * V2.Q64) amountOutCanon
      (V2.Q64 * (reserveOutCanon - amountOutCanon)) in
  let amountIn :=
    mulDivFloor amountOutCanon
      (mulDivFloor priceOut (priceImpact + 2 * V2.Q64) priceIn) (2 * V2.Q64) in
  mulDivFloor amountIn (10 ^ 8 + fee) (10 ^ 8).

End Spec.

(** Direction-dependent projections of a pool state, as destructured at the
    head of every quoting function. *)
Definition v1_reserveIn (pool : V1.BrownFiPoolState) (zeroToOne : bool) : Z :=
  if zeroToOne then V1.reserve0 pool else V1.reserve1 pool.
Definition v1_reserveOut (pool : V1.BrownFiPoolState) (zeroToOne : bool) : Z :=
  if zeroToOne then V1.reserve1 pool else V1.reserve0 pool.
Definition v2_reserveIn (pool : V2.BrownFiV2PoolState) (zeroToOne : bool) : Z :=
  if zeroToOne then V2.reserve0 pool else V2.reserve1 pool.
Definition v2_reserveOut (pool : V2.BrownFiV2PoolState) (zeroToOne : bool) : Z :=
  if zeroToOne then V2.reserve1 pool else V2.reserve0 pool.
Definition v2_tokenInDecimals (pool : V2.BrownFiV2PoolState) (zeroToOne : bool) : Z :=
  if zeroToOne then V2.token0Decimals pool else V2.token1Decimals pool.
Definition v2_tokenOutDecimals (pool : V2.BrownFiV2PoolState) (zeroToOne : bool) : Z :=
  if zeroToOne then V2.token1Decimals pool else V2.token0Decimals pool.

Definition v2_priceIn (pool : V2.BrownFiV2PoolState) (zeroToOne : bool) : Z :=
  if zeroToOne then V2.price0 pool else V2.price1 pool.
Definition v2_priceOut (pool : V2.BrownFiV2PoolState) (zeroToOne : bool) : Z :=
  if zeroToOne then V2.price1 pool else V2.price0 pool.

(** The data model of the specification: the numeric fields of a V2 pool
    state are unsigned, and the skew sensitivity is a fraction of [Q64]. *)
Definition wf_v2 (pool : V2.BrownFiV2PoolState) : Prop :=
  0 <= V2.reserve0 pool /\ 0 <= V2.reserve1 pool /\
  0 <= V2.price0 pool /\ 0 <= V2.price1 pool /\
  0 <= V2.kappa pool /\
  0 <= V2.lambda pool <= V2.Q64 /\
  0 <= V2.fee pool.

(** V2 [quoteByInput] as the specification words it, for a rounding [div] of
    the sign-sensitive divisions; a zero divisor is an arithmetic error.  As
    in section 4.2, the skew adjuster forms the notional value of each side
    from that side's own price and canonical reserve: the input side is A,
    the output side is B. *)
Definition v2_quoteByInput_spec (div : Z -> Z -> Z)
    (pool : V2.BrownFiV2PoolState) (zeroToOne : bool) (amountIn : Z) : outcome Z :=
  let parsedAmountIn :=
    Spec.toCanonicalScale (v2_tokenInDecimals pool zeroToOne) amountIn in
  let parsedReserveOut :=
    Spec.toCanonicalScale (v2_tokenOutDecimals pool zeroToOne)
      (v2_reserveOut pool zeroToOne) in
  let reserveA :=
    Spec.toCanonicalScale (v2_tokenInDecimals pool zeroToOne)
      (v2_reserveIn pool zeroToOne) in
  let reserveB := parsedReserveOut in
  let priceA := v2_priceIn pool zeroToOne in
  let priceB := v2_priceOut pool zeroToOne in
  if negb (V2.lambda pool =? 0) && (reserveA * priceA + reserveB * priceB =? 0)
  then Throw RangeError else
  let '(priceIn, priceOut) :=
    Spec.skewPrices priceA priceB reserveA reserveB (V2.lambda pool) in
  let effIn := Spec.mulDivFloor parsedAmountIn (10 ^ 8) (10 ^ 8 + V2.fee pool) in
  if Spec.canonicalOutDivisor div (V2.kappa pool) parsedReserveOut effIn
       priceIn priceOut =? 0
  then Throw RangeError else
  Return (Spec.fromCanonicalScaleWith div (v2_tokenOutDecimals pool zeroToOne)
            (Spec.canonicalOut div (V2.kappa pool) parsedReserveOut effIn
               priceIn priceOut)).

(** The closed form of the code's [swapExactInput] on a pool with
    non-negative fields.  It is read off the code, not off the
    specification: the code hands [getSkewnessPrice] the prices of the input
    and output side together with the canonical reserves of token0 and
    token1, in that order, in both directions. *)
Definition v2_swapExactInput_closed_form (div : Z -> Z -> Z)
    (pool : V2.BrownFiV2PoolState) (zeroToOne : bool) (amountIn : Z) : outcome Z :=
  let parsedAmountIn :=
    Spec.toCanonicalScale (v2_tokenInDecimals pool zeroToOne) amountIn in
  let parsedReserveOut :=
    Spec.toCanonicalScale (v2_tokenOutDecimals pool zeroToOne)
      (v2_reserveOut pool zeroToOne) in
  let reserveA := Spec.toCanonicalScale (V2.token0Decimals pool) (V2.reserve0 pool) in
  let reserveB := Spec.toCanonicalScale (V2.token1Decimals pool) (V2.reserve1 pool) in
  let priceA := v2_priceIn pool zeroToOne in
  let priceB := v2_priceOut pool zeroToOne in
  if negb (V2.lambda pool =? 0) && (reserveA * priceA + reserveB * priceB =? 0)
  then Throw RangeError else
  let '(priceIn, priceOut) :=
    Spec.skewPrices priceA priceB reserveA reserveB (V2.lambda pool) in
  let effIn := Spec.mulDivFloor parsedAmountIn (10 ^ 8) (10 ^ 8 + V2.fee pool) in
  if Spec.canonicalOutDivisor div (V2.kappa pool) parsedReserveOut effIn
       priceIn priceOut =? 0
  then Throw RangeError else
  Return (Spec.fromCanonicalScaleWith div (v2_tokenOutDecimals pool zeroToOne)
            (Spec.canonicalOut div (V2.kappa pool) parsedReserveOut effIn
               priceIn priceOut)).

(** V2 [quoteByOutput] as the specification words it, for skew-adjusted
    prices [priceIn] and [priceOut]. *)
Definition v2_quoteByOutput_spec (pool : V2.BrownFiV2PoolState) (zeroToOne : bool)
    (priceIn priceOut amountOut : Z) : Z :=
  Spec.fromCanonicalScale (v2_tokenInDecimals pool zeroToOne)
    (Spec.canonicalIn (V2.kappa pool) (V2.fee pool)
       (Spec.toCanonicalScale (v2_tokenOutDecimals pool zeroToOne) amountOut)
       (Spec.toCanonicalScale (v2_tokenOutDecimals pool zeroToOne)
          (v2_reserveOut pool zeroToOne))
       priceIn priceOut).

(** V1 [quoteByOutput] as the specification words it: every division rounds up. *)
Definition v1_amountOutWithFee (pool : V1.BrownFiPoolState) (amountOut : Z) : Z :=
  Spec.mulDivCeil amountOut 10000 (10000 - V1.fee pool).

Definition v1_quoteByOutput_spec (pool : V1.BrownFiPoolState) (zeroToOne : bool)
    (amountOut : Z) : Z :=
  let reserveOut := v1_reserveOut pool zeroToOne in
  let amountOutWithFee := v1_amountOutWithFee pool amountOut in
  let kappa' := if V1.kappa pool =? 0 then V1.Q128 else V1.kappa pool in
  let r := Spec.mulDivCeil kappa' amountOutWithFee (reserveOut - amountOutWithFee) in
  let avgPrice :=
    if zeroToOne
    then Spec.mulDivCeil (2 * V1.Q128 + r) V1.Q128 (V1.oraclePrice pool * 2)
    else Spec.mulDivCeil (V1.oraclePrice pool) (2 * V1.Q128 + r) (2 * V1.Q128) in
  Spec.mulDivCeil amountOutWithFee avgPrice V1.Q128.

(** ** The V2 state provider: [BrownFiV2PoolProvider]

    The provider reads the chain through [this.client] and keeps the pools
    it tracks in [this.pools], the map of its base class
    [BasePoolStateProvider], which it uses through [get] and [set] only.
    Here the answers of the client are an explicit argument and the map is
    passed in and out.  A JavaScript [Map] keeps its keys in insertion order
    and [set] on a present key keeps the key's place: it is embedded as an
    association list. *)

Module BrownFiV2PoolProvider.

(** The [result] fields of what [client.multicall] answers to the eight
    reads of [getPool], in the order of the call; a [result] is [undefined]
    ([None]) when the read failed. *)
Record PoolReads : Type := {
  token0 : option string;
  token1 : option string;
  getReserves : option (list Z);
  k : option Z;
  lambda : option Z;
  fee : option Z;
  token0Decimals : option Z;
  token1Decimals : option Z
}.

(** [a ?? d] *)
Definition nullish {A : Type} (a : option A) (d : A) : A :=
  match a with
  | Some x => x
  | None => d
  end.

(** [result?.[i]] *)
Definition optionalIndex (result : option (list Z)) (i : nat) : option Z :=
  match result with
  | Some l => nth_error l i
  | None => None
  end.

Definition getPool (multicall : string -> PoolReads) (pool : string)
    : V2.BrownFiV2PoolState :=
  let reads := multicall pool in
  {| V2.token0 := nullish (token0 reads) zeroAddress;
     V2.token1 := nullish (token1 reads) zeroAddress;
     V2.address := pool;
     V2.reserve0 := nullish (optionalIndex (getReserves reads) 0) 0;
     V2.reserve1 := nullish (optionalIndex (getReserves reads) 1) 0;
     V2.kappa := nullish (k reads) 0;
     V2.lambda := nullish (lambda reads) 0;
     V2.fee := nullish (fee reads) 0;
     V2.token0Decimals := nullish (token0Decimals reads) 18;
     V2.token1Decimals := nullish (token1Decimals reads) 18;
     V2.price0 := 0;
     V2.price1 := 0;
     V2.updateFee := 0;
     V2.updateFeedData := "0x" |}.

(** [this.pools]: a [Map] from pool address to pool state. *)
Definition Pools : Type := list (string * V2.BrownFiV2PoolState).

(** [pools.get(key)] *)
Fixpoint get (pools : Pools) (key : string) : option V2.BrownFiV2PoolState :=
  match pools with
  | nil => None
  | (key', value) :: rest =>
      if String.eqb key' key then Some value else get rest key
  end.

(** [pools.set(key, value)] *)
Fixpoint set (pools : Pools) (key : string) (value : V2.BrownFiV2PoolState) : Pools :=
  match pools with
  | nil => (key, value) :: nil
  | (key', value') :: rest =>
      if String.eqb key' key then (key', value) :: rest
      else (key', value') :: set rest key value
  end.

(** [poolState.reserve0 = reserve0; poolState.reserve1 = reserve1] *)
Definition setReserves (poolState : V2.BrownFiV2PoolState) (reserve0 reserve1 : Z)
    : V2.BrownFiV2PoolState :=
  {| V2.address := V2.address poolState;
     V2.token0 := V2.token0 poolState;
     V2.token1 := V2.token1 poolState;
     V2.reserve0 := reserve0;
     V2.reserve1 := reserve1;
     V2.kappa := V2.kappa poolState;
     V2.lambda := V2.lambda poolState;
     V2.fee := V2.fee poolState;
     V2.token0Decimals := V2.token0Decimals poolState;
     V2.token1Decimals := V2.token1Decimals poolState;
     V2.price0 := V2.price0 poolState;
     V2.price1 := V2.price1 poolState;
     V2.updateFee := V2.updateFee poolState;
     V2.updateFeedData := V2.updateFeedData poolState |}.

(** The events of a log, with their decoded arguments. *)
Inductive LogEvent : Type :=
| PairCreated (token0 token1 pair : string)
| Sync (reserve0 reserve1 : Z)
| OtherEvent (eventName : string).

(** A log: [address] can be missing. *)
Record Log : Type := {
  log_address : option string;
  log_event : LogEvent
}.

(** [!log.address]: a missing address and the empty string are falsy. *)
Definition noAddress (log : Log) : bool :=
  match log_address log with
  | None => true
  | Some a => String.eqb a ""
  end.

Definition handleEvent (multicall : string -> PoolReads) (pools : Pools)
    (log : Log) : Pools :=
  if noAddress log then pools else
  match log_event log with
  | PairCreated _ _ pairAddress =>
      let poolState := getPool multicall pairAddress in
      set pools pairAddress poolState
  | Sync reserve0 reserve1 =>
      match get pools (nullish (log_address log) "") with
      | None => pools
      | Some poolState =>
          set pools (nullish (log_address log) "")
              (setReserves poolState reserve0 reserve1)
      end
  | OtherEvent _ => pools
  end.

End BrownFiV2PoolProvider.

Module Provider := BrownFiV2PoolProvider.

(** A copy of a V2 pool state with another skew sensitivity. *)
Definition v2_set_lambda (pool : V2.BrownFiV2PoolState) (lambda : Z)
    : V2.BrownFiV2PoolState :=
  {| V2.address := V2.address pool;
     V2.token0 := V2.token0 pool;
     V2.token1 := V2.token1 pool;
     V2.reserve0 := V2.reserve0 pool;
     V2.reserve1 := V2.reserve1 pool;
     V2.kappa := V2.kappa pool;
     V2.lambda := lambda;
     V2.fee := V2.fee pool;
     V2.token0Decimals := V2.token0Decimals pool;
     V2.token1Decimals := V2.token1Decimals pool;
     V2.price0 := V2.price0 pool;
     V2.price1 := V2.price1 pool;
     V2.updateFee := V2.updateFee pool;
     V2.updateFeedData := V2.updateFeedData pool |}.

(** The doubles a division by zero yields. *)
Definition double_nan : spec_float := S754_nan.

(** * Properties *)

(** ** Outcomes *)

Lemma bigdiv_nonzero (a b : Z) : b <> 0 -> bigdiv a b = Return (Z.quot a b).
Proof. intros H. unfold bigdiv. apply Z.eqb_neq in H. now rewrite H. Qed.

Lemma bigdiv_zero (a : Z) : bigdiv a 0 = Throw RangeError.
Proof. reflexivity. Qed.

Lemma bigdiv_pos (a b : Z) : 0 <= a -> 0 < b -> bigdiv a b = Return (a / b).
Proof.
  intros Ha Hb. rewrite bigdiv_nonzero by lia.
  now rewrite Z.quot_div_nonneg by lia.
Qed.

Lemma bigrem_nonzero (a b : Z) : b <> 0 -> bigrem a b = Return (Z.rem a b).
Proof. intros H. unfold bigrem. apply Z.eqb_neq in H. now rewrite H. Qed.

Lemma Q64_value : V2.Q64 = 18446744073709551616.
Proof. reflexivity. Qed.

Lemma Q128_value : V1.Q128 = 340282366920938463463374607431768211456.
Proof. reflexivity. Qed.

Lemma Q64_pos : 0 < V2.Q64.
Proof. rewrite Q64_value. lia. Qed.

Lemma Q128_pos : 0 < V1.Q128.
Proof. rewrite Q128_value. lia. Qed.

(** ** The integer square root *)

Section Newton.

Variable v : Z.
Hypothesis v_pos : 0 < v.

Let s := Z.sqrt v.

Lemma sqrt_bounds : s * s <= v < (s + 1) * (s + 1) /\ 0 < s.
Proof.
  subst s. pose proof (Z.sqrt_spec v ltac:(lia)) as H.
  pose proof (Z.sqrt_pos v) as Hp.
  unfold Z.succ in H. split; [lia | apply Hp; lia].
Qed.

(** One Newton step never goes below the root (arithmetic-geometric mean). *)
Lemma newton_step_ge (x : Z) : 0 < x -> s <= (v / x + x) / 2.
Proof.
  intros Hx. destruct sqrt_bounds as [[Hlo Hhi] Hs].
  apply Z.div_le_lower_bound; [lia|].
  pose proof (Z.mul_succ_div_gt v x Hx) as Hq. unfold Z.succ in Hq.
  pose proof (Z.square_nonneg (s - x)) as Hsq.
  destruct (Z_le_gt_dec (2 * s) (v / x + x)) as [|Hgt]; [assumption|].
  exfalso.
  assert (Hm : x * (v / x + 1) <= x * (2 * s - x))
    by (apply Z.mul_le_mono_nonneg_l; lia).
  lia.
Qed.

(** Above the root, a step closes at least half of the gap to it. *)
Lemma newton_step_halves (x : Z) : s < x -> 2 * ((v / x + x) / 2) <= x + s.
Proof.
  intros Hx. destruct sqrt_bounds as [[Hlo Hhi] Hs].
  pose proof (Z.mul_div_le (v / x + x) 2 ltac:(lia)) as H2.
  pose proof (Z.mul_div_le v x ltac:(lia)) as Hq.
  assert (Hle : v / x <= s); [|lia].
  destruct (Z_le_gt_dec (v / x) s) as [|Hgt]; [assumption|].
  exfalso. nia.
Qed.

Lemma sqrt_loop_converges (fuel : nat) : forall x,
  s <= x -> x - s < 2 ^ Z.of_nat fuel ->
  V2.sqrt_loop (S fuel) v x ((v / x + x) / 2) = Return s.
Proof.
  destruct sqrt_bounds as [_ Hs].
  induction fuel as [|fuel IH]; intros x Hsx Hgap.
  - assert (x = s) by (change (2 ^ Z.of_nat 0) with 1 in Hgap; lia). subst x.
    pose proof (newton_step_ge s Hs) as Hge.
    cbn [V2.sqrt_loop]. apply Z.ltb_ge in Hge. now rewrite Hge.
  - cbn [V2.sqrt_loop].
    destruct (Z.ltb_spec ((v / x + x) / 2) x) as [Hlt|Hge].
    + assert (Hx : s < x).
      { pose proof (newton_step_ge x ltac:(lia)). lia. }
      pose proof (newton_step_ge x ltac:(lia)) as Hy.
      pose proof (newton_step_halves x Hx) as Hh.
      set (y := (v / x + x) / 2) in *.
      rewrite (bigdiv_pos v y) by lia. cbn [bind].
      rewrite (bigdiv_pos (v / y + y) 2);
        [| pose proof (Z.div_pos v y ltac:(lia) ltac:(lia)); lia | lia].
      cbn [bind]. apply IH; [apply newton_step_ge; lia|].
      rewrite Nat2Z.inj_succ, Z.pow_succ_r in Hgap by lia. lia.
    + f_equal.
      destruct (Z_le_gt_dec x s) as [|Hgt]; [lia|].
      pose proof (newton_step_halves x ltac:(lia)). lia.
Qed.

Lemma sqrt_pos_eq : V2.sqrt v = Return s.
Proof.
  unfold V2.sqrt. replace (v =? 0) with false by (symmetry; apply Z.eqb_neq; lia).
  rewrite bigdiv_pos by lia. cbn [bind].
  replace ((v + 1) / 2) with ((v / v + v) / 2)
    by (rewrite Z.div_same by lia; f_equal; lia).
  unfold V2.sqrt_fuel. apply sqrt_loop_converges.
  - destruct sqrt_bounds as [[Hlo _] Hs]. nia.
  - destruct sqrt_bounds as [_ Hs].
    pose proof (Z.log2_spec v v_pos) as [_ Hlog].
    pose proof (Z.log2_nonneg v) as Hl.
    rewrite !Nat2Z.inj_succ, Z2Nat.id by assumption.
    rewrite Z.pow_succ_r by lia.
    assert (0 < 2 ^ Z.succ (Z.log2 v)) by lia. lia.
Qed.

End Newton.

(** On a non-negative argument [sqrt] computes the floor of the square root. *)
Lemma sqrt_eq_Zsqrt (v : Z) : 0 <= v -> V2.sqrt v = Return (Z.sqrt v).
Proof.
  intros Hv. destruct (Z.eq_dec v 0) as [->|Hne]; [reflexivity|].
  apply sqrt_pos_eq. lia.
Qed.

(** On a negative argument the loop is not entered and the argument comes back. *)
Lemma sqrt_neg (v : Z) : v < 0 -> V2.sqrt v = Return v.
Proof.
  intros Hv. unfold V2.sqrt.
  replace (v =? 0) with false by (symmetry; apply Z.eqb_neq; lia).
  rewrite bigdiv_nonzero by lia. cbn [bind V2.sqrt_fuel V2.sqrt_loop].
  assert (Hq : v <= Z.quot (v + 1) 2).
  { replace (v + 1) with (- (- (v + 1))) by lia.
    rewrite Z.quot_opp_l by lia.
    rewrite Z.quot_div_nonneg by lia.
    pose proof (Z.mul_div_le (- (v + 1)) 2 ltac:(lia)).
    pose proof (Z.div_pos (- (v + 1)) 2 ltac:(lia) ltac:(lia)). lia. }
  apply Z.ltb_ge in Hq. now rewrite Hq.
Qed.

(** The iteration budget of the model is never used up: [sqrt] is total. *)
Theorem sqrt_never_out_of_fuel (v : Z) : V2.sqrt v <> OutOfFuel.
Proof.
  destruct (Z_lt_le_dec v 0) as [Hneg|Hnn].
  - now rewrite sqrt_neg.
  - now rewrite sqrt_eq_Zsqrt.
Qed.

(** C6: for every non-negative [v], [sqrt v] returns; the result is [0] for
    [v = 0] and is the floor of the square root: [r*r <= v < (r+1)*(r+1)]. *)
Theorem sqrt_floor_correct (v : Z) :
  0 <= v ->
  exists r, V2.sqrt v = Return r /\
            r * r <= v < (r + 1) * (r + 1) /\
            (v = 0 -> r = 0).
Proof.
  intros Hv. exists (Z.sqrt v). split; [now apply sqrt_eq_Zsqrt|].
  pose proof (Z.sqrt_spec v Hv) as H. unfold Z.succ in H.
  split; [lia|]. intros ->. reflexivity.
Qed.

Lemma sqrt_floor_correct_witness :
  exists r, V2.sqrt 1000000 = Return r /\
            r * r <= 1000000 < (r + 1) * (r + 1) /\
            (1000000 = 0 -> r = 0).
Proof. apply (sqrt_floor_correct 1000000). lia. Defined.

(** ** Which exceptions a call can raise *)

(** Past its explicit guards, the arithmetic raises nothing but the
    [RangeError] of a division by zero. *)
Definition range_error_only {A : Type} (m : outcome A) : Prop :=
  match m with
  | Return _ => True
  | Throw e => e = RangeError
  | OutOfFuel => False
  end.

Lemma range_error_only_bind {A B : Type} (m : outcome A) (k : A -> outcome B) :
  range_error_only m -> (forall a, range_error_only (k a)) ->
  range_error_only (bind m k).
Proof. destruct m; cbn; auto. Qed.

Lemma range_error_only_bigdiv (a b : Z) : range_error_only (bigdiv a b).
Proof. unfold bigdiv. destruct (b =? 0); exact I || reflexivity. Qed.

Lemma range_error_only_bigrem (a b : Z) : range_error_only (bigrem a b).
Proof. unfold bigrem. destruct (b =? 0); exact I || reflexivity. Qed.

Lemma range_error_only_Return {A : Type} (a : A) : range_error_only (Return a).
Proof. exact I. Qed.

Lemma range_error_only_not_Error {A : Type} (m : outcome A) (msg : string) :
  range_error_only m -> m <> Throw (Error msg).
Proof. intros H ->. discriminate H. Qed.

Create HintDb roe.
#[local] Hint Resolve range_error_only_bigdiv range_error_only_bigrem
  range_error_only_Return : roe.

(** Walks through a chain of binds and conditionals. *)
Ltac roe :=
  repeat first
    [ progress auto with roe
    | apply range_error_only_bind; [| intros ? ]
    | match goal with
      | |- range_error_only (if ?c then _ else _) => destruct c
      | |- range_error_only (let '(_, _) := ?p in _) => destruct p
      | |- range_error_only (match ?p with (_, _) => _ end) => destruct p
      end ].

(** Resolves the comparisons of a goal that linear arithmetic decides. *)
Ltac ztest :=
  repeat match goal with
  | |- context [Z.geb ?a ?b] => rewrite (Z.geb_leb a b)
  | |- context [Z.gtb ?a ?b] => rewrite (Z.gtb_ltb a b)
  | |- context [Z.leb ?a ?b] =>
      first [ replace (Z.leb a b) with true by (symmetry; apply Z.leb_le; lia)
            | replace (Z.leb a b) with false by (symmetry; apply Z.leb_gt; lia) ]
  | |- context [Z.ltb ?a ?b] =>
      first [ replace (Z.ltb a b) with true by (symmetry; apply Z.ltb_lt; lia)
            | replace (Z.ltb a b) with false by (symmetry; apply Z.ltb_ge; lia) ]
  end.

(** ** V1 *)

(** For a positive divisor [mulDivRoundingUp] is the ceiling, whatever the
    sign of the product. *)
Lemma mulDivRoundingUp_ceil (a b d : Z) :
  0 < d -> V1.mulDivRoundingUp a b d = Return (Spec.mulDivCeil a b d).
Proof.
  intros Hd. unfold V1.mulDivRoundingUp, Spec.mulDivCeil.
  rewrite bigdiv_nonzero, bigrem_nonzero by lia. cbn [bind].
  set (p := a * b).
  pose proof (Z.quot_rem' p d) as Hqr.
  assert (Hr : - d < Z.rem p d < d).
  { destruct (Z_le_gt_dec 0 p).
    - pose proof (Z.rem_bound_pos p d ltac:(lia) Hd). lia.
    - pose proof (Z.rem_bound_pos_neg p d Hd ltac:(lia)). lia. }
  assert (Hsign : 0 < Z.rem p d -> 0 < p).
  { intros H. destruct (Z_le_gt_dec p 0); [|lia].
    pose proof (Z.rem_bound_pos_neg p d Hd ltac:(lia)). lia. }
  assert (Hsign' : Z.rem p d < 0 -> p < 0).
  { intros H. destruct (Z_le_gt_dec 0 p); [|lia].
    pose proof (Z.rem_bound_pos p d ltac:(lia) Hd). lia. }
  destruct (Z.ltb_spec 0 (Z.rem p d)) as [Hpos|Hnpos]; f_equal.
  - rewrite <- (Z.div_unique (- p) d (- Z.quot p d - 1) (d - Z.rem p d)); lia.
  - rewrite <- (Z.div_unique (- p) d (- Z.quot p d) (- Z.rem p d)); lia.
Qed.

(** The ceiling is the least integer whose product with [d] reaches [a*b]. *)
Lemma mulDivCeil_spec (a b d : Z) :
  0 < d ->
  d * (Spec.mulDivCeil a b d - 1) < a * b <= d * Spec.mulDivCeil a b d.
Proof.
  intros Hd. unfold Spec.mulDivCeil.
  pose proof (Z.mul_div_le (- (a * b)) d Hd).
  pose proof (Z.mul_succ_div_gt (- (a * b)) d Hd). lia.
Qed.

Lemma mulDivCeil_mono (a b d a' b' : Z) :
  0 < d -> a * b <= a' * b' -> Spec.mulDivCeil a b d <= Spec.mulDivCeil a' b' d.
Proof.
  intros Hd Hle. unfold Spec.mulDivCeil.
  pose proof (Z.div_le_mono (- (a' * b')) (- (a * b)) d Hd ltac:(lia)). lia.
Qed.

Lemma mulDivCeil_pos (a b d : Z) :
  0 < d -> 0 < a * b -> 0 < Spec.mulDivCeil a b d.
Proof.
  intros Hd Hp. pose proof (mulDivCeil_spec a b d Hd).
  destruct (Z_le_gt_dec (Spec.mulDivCeil a b d) 0); [|lia]. nia.
Qed.

Lemma mulDivCeil_nonneg (a b d : Z) :
  0 < d -> 0 <= a * b -> 0 <= Spec.mulDivCeil a b d.
Proof.
  intros Hd Hp. pose proof (mulDivCeil_spec a b d Hd).
  destruct (Z_le_gt_dec 0 (Spec.mulDivCeil a b d)); [assumption|]. nia.
Qed.

Lemma range_error_only_mulDivRoundingUp (a b d : Z) :
  range_error_only (V1.mulDivRoundingUp a b d).
Proof. unfold V1.mulDivRoundingUp. roe. Qed.

#[local] Hint Resolve range_error_only_mulDivRoundingUp : roe.

Section V1_quoteByOutput.

Variable pool : V1.BrownFiPoolState.
Variable zeroToOne : bool.
Variable amountOut : Z.

Let reserveIn := v1_reserveIn pool zeroToOne.
Let reserveOut := v1_reserveOut pool zeroToOne.
Let amountOutWithFee := v1_amountOutWithFee pool amountOut.

Hypothesis amountOut_pos : 0 < amountOut.

(** The liquidity guard. *)
Lemma v1_swapExactOutput_liquidity :
  reserveIn <= 0 \/ reserveOut <= 0 ->
  V1.swapExactOutput pool zeroToOne amountOut = Throw V1.INSUFFICIENT_LIQUIDITY.
Proof.
  subst reserveIn reserveOut. unfold v1_reserveIn, v1_reserveOut, V1.swapExactOutput.
  intros H. destruct zeroToOne; ztest;
    destruct (Z.leb_spec (V1.reserve0 pool) 0), (Z.leb_spec (V1.reserve1 pool) 0);
    try reflexivity; lia.
Qed.

Hypothesis reserveIn_pos : 0 < reserveIn.
Hypothesis reserveOut_pos : 0 < reserveOut.
Hypothesis fee_lt : V1.fee pool < 10000.

Lemma v1_amountOutWithFee_pos : 0 < amountOutWithFee.
Proof.
  subst amountOutWithFee. unfold v1_amountOutWithFee.
  apply mulDivCeil_pos; lia.
Qed.

(** Up to the 90% cap. *)
Lemma v1_swapExactOutput_cap :
  reserveOut * 9 <= amountOutWithFee * 10 ->
  V1.swapExactOutput pool zeroToOne amountOut = Throw V1.INSUFFICIENT_OUTPUT_AMOUNT.
Proof.
  subst reserveIn reserveOut amountOutWithFee.
  unfold v1_reserveIn, v1_reserveOut, v1_amountOutWithFee, V1.swapExactOutput in *.
  intros H. unfold V1.FEE_DENOMINATOR.
  destruct zeroToOne; ztest; cbn [orb];
    rewrite mulDivRoundingUp_ceil by lia; cbn [bind]; ztest; reflexivity.
Qed.

(** Below the cap only a division by zero can still go wrong. *)
Lemma v1_swapExactOutput_below_cap :
  amountOutWithFee * 10 < reserveOut * 9 ->
  range_error_only (V1.swapExactOutput pool zeroToOne amountOut).
Proof.
  subst reserveIn reserveOut amountOutWithFee.
  unfold v1_reserveIn, v1_reserveOut, v1_amountOutWithFee, V1.swapExactOutput in *.
  intros H. unfold V1.FEE_DENOMINATOR.
  destruct zeroToOne; ztest; cbn [orb];
    rewrite mulDivRoundingUp_ceil by lia; cbn [bind]; ztest; roe.
Qed.

(** Below the cap and with a usable oracle price, the code computes the
    formula of the specification. *)
Lemma v1_swapExactOutput_eq :
  amountOutWithFee * 10 < reserveOut * 9 ->
  (zeroToOne = true -> 0 < V1.oraclePrice pool) ->
  V1.swapExactOutput pool zeroToOne amountOut =
  Return (v1_quoteByOutput_spec pool zeroToOne amountOut).
Proof.
  subst reserveIn reserveOut amountOutWithFee.
  unfold v1_reserveIn, v1_reserveOut, v1_amountOutWithFee, V1.swapExactOutput,
    v1_quoteByOutput_spec in *.
  intros H HP. unfold V1.FEE_DENOMINATOR. pose proof Q128_pos.
  destruct zeroToOne; ztest; cbn [orb];
    rewrite mulDivRoundingUp_ceil by lia; cbn [bind]; ztest;
    rewrite mulDivRoundingUp_ceil by lia; cbn [bind].
  - specialize (HP eq_refl).
    rewrite mulDivRoundingUp_ceil by lia; cbn [bind].
    rewrite mulDivRoundingUp_ceil by lia.
    repeat f_equal; lia.
  - rewrite mulDivRoundingUp_ceil by lia; cbn [bind].
    rewrite mulDivRoundingUp_ceil by lia.
    repeat f_equal; lia.
Qed.

End V1_quoteByOutput.

(** ** V2: rescaling and price skew *)

Lemma pow10_pos (k : Z) : 0 <= k -> 0 < 10 ^ k.
Proof. intros Hk. apply Z.pow_pos_nonneg; lia. Qed.

(** Rescaling never raises: the exponent of the power of ten is never negative. *)
Lemma parseRawToDefaultDecimals_eq (d a : Z) :
  V2.parseRawToDefaultDecimals d a =
  Return (if 18 <? d then Z.quot a (10 ^ (d - 18)) else a * 10 ^ (18 - d)).
Proof.
  unfold V2.parseRawToDefaultDecimals, V2.DECIMALS. rewrite Z.gtb_ltb.
  destruct (Z.ltb_spec 18 d); [|reflexivity].
  pose proof (pow10_pos (d - 18) ltac:(lia)). now rewrite bigdiv_nonzero by lia.
Qed.

Lemma parseDefaultDecimalsToRaw_eq (d a : Z) :
  V2.parseDefaultDecimalsToRaw d a =
  Return (if 18 <? d then a * 10 ^ (d - 18) else Z.quot a (10 ^ (18 - d))).
Proof.
  unfold V2.parseDefaultDecimalsToRaw, V2.DECIMALS. rewrite Z.gtb_ltb.
  destruct (Z.ltb_spec 18 d); [reflexivity|].
  pose proof (pow10_pos (18 - d) ltac:(lia)). now rewrite bigdiv_nonzero by lia.
Qed.

Lemma parseRawToDefaultDecimals_nonneg (d a : Z) :
  0 <= a ->
  V2.parseRawToDefaultDecimals d a = Return (Spec.toCanonicalScale d a).
Proof.
  intros Ha. rewrite parseRawToDefaultDecimals_eq. unfold Spec.toCanonicalScale.
  destruct (Z.ltb_spec 18 d); [|reflexivity].
  pose proof (pow10_pos (d - 18) ltac:(lia)). now rewrite Z.quot_div_nonneg by lia.
Qed.

Lemma parseDefaultDecimalsToRaw_nonneg (d a : Z) :
  0 <= a ->
  V2.parseDefaultDecimalsToRaw d a = Return (Spec.fromCanonicalScale d a).
Proof.
  intros Ha. rewrite parseDefaultDecimalsToRaw_eq. unfold Spec.fromCanonicalScale.
  destruct (Z.ltb_spec 18 d); [reflexivity|].
  pose proof (pow10_pos (18 - d) ltac:(lia)). now rewrite Z.quot_div_nonneg by lia.
Qed.

Lemma toCanonicalScale_nonneg (d a : Z) : 0 <= a -> 0 <= Spec.toCanonicalScale d a.
Proof.
  intros Ha. unfold Spec.toCanonicalScale. destruct (Z.ltb_spec 18 d).
  - apply Z.div_pos; [lia | apply pow10_pos; lia].
  - pose proof (pow10_pos (18 - d) ltac:(lia)). nia.
Qed.

Lemma toCanonicalScale_mono (d a b : Z) :
  a <= b -> Spec.toCanonicalScale d a <= Spec.toCanonicalScale d b.
Proof.
  intros Hab. unfold Spec.toCanonicalScale. destruct (Z.ltb_spec 18 d).
  - apply Z.div_le_mono; [apply pow10_pos; lia | lia].
  - pose proof (pow10_pos (18 - d) ltac:(lia)). nia.
Qed.

(** Up to 18 decimals rescaling multiplies, so it keeps strict order. *)
Lemma toCanonicalScale_strict (d a b : Z) :
  d <= 18 -> a < b -> Spec.toCanonicalScale d a < Spec.toCanonicalScale d b.
Proof.
  intros Hd Hab. unfold Spec.toCanonicalScale.
  replace (18 <? d) with false by (symmetry; apply Z.ltb_ge; lia).
  pose proof (pow10_pos (18 - d) ltac:(lia)). nia.
Qed.

Lemma fromCanonicalScale_mono (d a b : Z) :
  a <= b -> Spec.fromCanonicalScale d a <= Spec.fromCanonicalScale d b.
Proof.
  intros Hab. unfold Spec.fromCanonicalScale. destruct (Z.ltb_spec 18 d).
  - pose proof (pow10_pos (d - 18) ltac:(lia)). nia.
  - apply Z.div_le_mono; [apply pow10_pos; lia | lia].
Qed.

Lemma range_error_only_parseRaw (d a : Z) :
  range_error_only (V2.parseRawToDefaultDecimals d a).
Proof. now rewrite parseRawToDefaultDecimals_eq. Qed.

Lemma range_error_only_parseToRaw (d a : Z) :
  range_error_only (V2.parseDefaultDecimalsToRaw d a).
Proof. now rewrite parseDefaultDecimalsToRaw_eq. Qed.

Lemma range_error_only_mulDiv (a b d : Z) : range_error_only (V2.mulDiv a b d).
Proof. unfold V2.mulDiv. roe. Qed.

Lemma range_error_only_sqrt (v : Z) : range_error_only (V2.sqrt v).
Proof.
  destruct (Z_lt_le_dec v 0).
  - now rewrite sqrt_neg.
  - now rewrite sqrt_eq_Zsqrt.
Qed.

#[local] Hint Resolve range_error_only_parseRaw range_error_only_parseToRaw
  range_error_only_mulDiv range_error_only_sqrt : roe.

Lemma range_error_only_getSkewnessPrice (pA pB rA rB l : Z) :
  range_error_only (V2.getSkewnessPrice pA pB rA rB l).
Proof. unfold V2.getSkewnessPrice. roe. Qed.

Lemma range_error_only_computeLeftSqrt (a pI pO r : Z) :
  range_error_only (V2.computeLeftSqrt a pI pO r).
Proof. unfold V2.computeLeftSqrt. roe. Qed.

Lemma range_error_only_computeRightSqrt (a pI pO r k : Z) :
  range_error_only (V2.computeRightSqrt a pI pO r k).
Proof. unfold V2.computeRightSqrt. roe. Qed.

#[local] Hint Resolve range_error_only_getSkewnessPrice
  range_error_only_computeLeftSqrt range_error_only_computeRightSqrt : roe.

Lemma getSkewnessPrice_lambda_zero (pA pB rA rB : Z) :
  V2.getSkewnessPrice pA pB rA rB 0 = Return (pA, pB).
Proof. reflexivity. Qed.

Lemma getSkewnessPrice_balanced (pA pB rA rB l : Z) :
  rA * pA = rB * pB -> rA * pA <> 0 ->
  V2.getSkewnessPrice pA pB rA rB l = Return (pA, pB).
Proof.
  intros Hbal Hnz. unfold V2.getSkewnessPrice.
  destruct (l =? 0); [reflexivity|].
  rewrite <- Hbal, Z.geb_leb, Z.leb_refl, Z.sub_diag.
  unfold V2.mulDiv. rewrite Z.mul_0_l.
  rewrite bigdiv_nonzero by lia. cbn [bind].
  rewrite Z.quot_0_l by lia. rewrite Z.add_0_r, Z.sub_0_r.
  pose proof Q64_pos.
  rewrite !bigdiv_nonzero by lia. cbn [bind].
  now rewrite !Z.quot_mul by lia.
Qed.

(** ** V2: guards *)

Section V2_guards.

Variable pool : V2.BrownFiV2PoolState.
Variable zeroToOne : bool.
Variable amount : Z.

Let reserveOut := v2_reserveOut pool zeroToOne.

Lemma v2_swapExactInput_liquidity :
  0 < amount -> reserveOut <= 0 ->
  V2.swapExactInput pool zeroToOne amount = Throw V2.INSUFFICIENT_LIQUIDITY.
Proof.
  subst reserveOut. unfold v2_reserveOut, V2.swapExactInput.
  intros Ha Hr. destruct zeroToOne; ztest; reflexivity.
Qed.

Lemma v2_swapExactOutput_liquidity :
  0 < amount -> reserveOut <= 0 ->
  V2.swapExactOutput pool zeroToOne amount = Throw V2.INSUFFICIENT_LIQUIDITY.
Proof.
  subst reserveOut. unfold v2_reserveOut, V2.swapExactOutput.
  intros Ha Hr. destruct zeroToOne; ztest; reflexivity.
Qed.

Lemma v2_swapExactOutput_cap :
  0 < amount -> 0 < reserveOut -> reserveOut * 8 <= amount * 10 ->
  V2.swapExactOutput pool zeroToOne amount = Throw V2.MAX_80_PERCENT_OF_RESERVE.
Proof.
  subst reserveOut. unfold v2_reserveOut, V2.swapExactOutput.
  intros Ha Hr Hc. destruct zeroToOne; ztest; reflexivity.
Qed.

(** With a positive amount and a positive output reserve, [swapExactInput]
    is past its guards. *)
Lemma v2_swapExactInput_past_guards :
  0 < amount -> 0 < reserveOut ->
  range_error_only (V2.swapExactInput pool zeroToOne amount).
Proof.
  subst reserveOut. unfold v2_reserveOut, V2.swapExactInput.
  intros Ha Hr. destruct zeroToOne; ztest; roe.
Qed.

Lemma v2_swapExactOutput_past_guards :
  0 < amount -> 0 < reserveOut -> amount * 10 < reserveOut * 8 ->
  range_error_only (V2.swapExactOutput pool zeroToOne amount).
Proof.
  subst reserveOut. unfold v2_reserveOut, V2.swapExactOutput.
  intros Ha Hr Hc. destruct zeroToOne; ztest; roe.
Qed.

(** Whatever the amount, a positive output reserve rules the liquidity
    exception out: the input reserve is not looked at. *)
Lemma v2_swapExactInput_no_liquidity_error :
  0 < reserveOut ->
  V2.swapExactInput pool zeroToOne amount <> Throw V2.INSUFFICIENT_LIQUIDITY.
Proof.
  intros Hr. destruct (Z_le_gt_dec amount 0) as [Hle|Hgt].
  - unfold V2.swapExactInput. ztest. discriminate.
  - apply range_error_only_not_Error, v2_swapExactInput_past_guards; lia.
Qed.

Lemma v2_swapExactOutput_no_liquidity_error :
  0 < reserveOut ->
  V2.swapExactOutput pool zeroToOne amount <> Throw V2.INSUFFICIENT_LIQUIDITY.
Proof.
  intros Hr. destruct (Z_le_gt_dec amount 0) as [Hle|Hgt].
  - unfold V2.swapExactOutput. ztest. discriminate.
  - destruct (Z_le_gt_dec (reserveOut * 8) (amount * 10)).
    + rewrite v2_swapExactOutput_cap by lia. discriminate.
    + apply range_error_only_not_Error, v2_swapExactOutput_past_guards; lia.
Qed.

(** The divisor of the price impact, for an output token of at most 18
    decimals. *)
Lemma v2_price_impact_divisor_pos :
  v2_tokenOutDecimals pool zeroToOne <= 18 ->
  0 < amount -> 0 < reserveOut -> amount * 10 < reserveOut * 8 ->
  Spec.toCanonicalScale (v2_tokenOutDecimals pool zeroToOne) amount <
  Spec.toCanonicalScale (v2_tokenOutDecimals pool zeroToOne) reserveOut.
Proof.
  intros Hd Ha Hr Hc. apply toCanonicalScale_strict; lia.
Qed.

End V2_guards.

(** ** The claims on guards, placeholders and skew *)

(** C3 (amended): for a V1 pool with both reserves positive and
    [fee < 10000], an [amountOut > 0] whose [amountOutWithFee * 10] is below
    [reserveOut * 9] and, for direction zeroToOne, a positive oracle price,
    [swapExactOutput] returns the round-up formula of the specification. *)
Theorem v1_swapExactOutput_formula (pool : V1.BrownFiPoolState)
    (zeroToOne : bool) (amountOut : Z) :
  0 < V1.reserve0 pool -> 0 < V1.reserve1 pool ->
  V1.fee pool < 10000 ->
  0 < amountOut ->
  v1_amountOutWithFee pool amountOut * 10 < v1_reserveOut pool zeroToOne * 9 ->
  (zeroToOne = true -> 0 < V1.oraclePrice pool) ->
  V1.swapExactOutput pool zeroToOne amountOut =
  Return (v1_quoteByOutput_spec pool zeroToOne amountOut).
Proof.
  intros H0 H1 Hfee Ha Hcap HP.
  apply v1_swapExactOutput_eq; try assumption;
    unfold v1_reserveIn, v1_reserveOut; destruct zeroToOne; assumption.
Qed.

Lemma v1_swapExactOutput_formula_witness :
  V1.swapExactOutput v1_reference_pool true (10 * ether) =
  Return (v1_quoteByOutput_spec v1_reference_pool true (10 * ether)).
Proof.
  apply (v1_swapExactOutput_formula v1_reference_pool true (10 * ether));
    try (intros _); vm_compute; reflexivity.
Defined.

(** C3 as stated fails without a price: every stated condition holds on the
    unpriced pool, and the call raises the [RangeError] of a division by
    zero instead of returning. *)
Lemma v1_swapExactOutput_unpriced :
  0 < V1.reserve0 v1_unpriced_pool /\ 0 < V1.reserve1 v1_unpriced_pool /\
  V1.fee v1_unpriced_pool < 10000 /\ 0 < 10 * ether /\
  v1_amountOutWithFee v1_unpriced_pool (10 * ether) * 10 <
    v1_reserveOut v1_unpriced_pool true * 9 /\
  V1.swapExactOutput v1_unpriced_pool true (10 * ether) = Throw RangeError /\
  V1.swapExactOutput v1_unpriced_pool true (10 * ether) <>
    Return (v1_quoteByOutput_spec v1_unpriced_pool true (10 * ether)).
Proof. repeat split; try (vm_compute; reflexivity). vm_compute. discriminate. Qed.

(** C4 (amended): with positive reserves and a positive amount, V1
    [swapExactOutput] raises INSUFFICIENT_OUTPUT_AMOUNT exactly when
    [amountOutWithFee * 10 >= reserveOut * 9], provided [fee < 10000]; V2
    [swapExactOutput] raises MAX_80_PERCENT_OF_RESERVE exactly when
    [amountOut * 10 >= reserveOut * 8] on the raw amounts. *)
Theorem reserve_fraction_caps :
  (forall (pool : V1.BrownFiPoolState) (zeroToOne : bool) (amountOut : Z),
     0 < V1.reserve0 pool -> 0 < V1.reserve1 pool -> 0 < amountOut ->
     V1.fee pool < 10000 ->
     (V1.swapExactOutput pool zeroToOne amountOut = Throw V1.INSUFFICIENT_OUTPUT_AMOUNT
      <-> v1_amountOutWithFee pool amountOut * 10 >= v1_reserveOut pool zeroToOne * 9))
  /\
  (forall (pool : V2.BrownFiV2PoolState) (zeroToOne : bool) (amountOut : Z),
     0 < V2.reserve0 pool -> 0 < V2.reserve1 pool -> 0 < amountOut ->
     (V2.swapExactOutput pool zeroToOne amountOut = Throw V2.MAX_80_PERCENT_OF_RESERVE
      <-> amountOut * 10 >= v2_reserveOut pool zeroToOne * 8)).
Proof.
  split.
  - intros pool z a H0 H1 Ha Hfee.
    assert (Hin : 0 < v1_reserveIn pool z) by (unfold v1_reserveIn; destruct z; lia).
    assert (Hout : 0 < v1_reserveOut pool z) by (unfold v1_reserveOut; destruct z; lia).
    split.
    + intros Hthrow.
      destruct (Z_lt_ge_dec (v1_amountOutWithFee pool a * 10) (v1_reserveOut pool z * 9))
        as [Hlt|Hge]; [|assumption].
      exfalso. revert Hthrow. apply range_error_only_not_Error.
      now apply v1_swapExactOutput_below_cap.
    + intros Hge. apply v1_swapExactOutput_cap; try assumption. lia.
  - intros pool z a H0 H1 Ha.
    assert (Hout : 0 < v2_reserveOut pool z) by (unfold v2_reserveOut; destruct z; lia).
    split.
    + intros Hthrow.
      destruct (Z_lt_ge_dec (a * 10) (v2_reserveOut pool z * 8)) as [Hlt|Hge];
        [|assumption].
      exfalso. revert Hthrow. apply range_error_only_not_Error.
      now apply v2_swapExactOutput_past_guards.
    + intros Hge. apply v2_swapExactOutput_cap; try assumption. lia.
Qed.

Lemma reserve_fraction_caps_witness :
  (V1.swapExactOutput v1_reference_pool true (190 * ether) = Throw V1.INSUFFICIENT_OUTPUT_AMOUNT
   <-> v1_amountOutWithFee v1_reference_pool (190 * ether) * 10 >=
       v1_reserveOut v1_reference_pool true * 9)
  /\
  (V2.swapExactOutput v2_reference_pool true (160 * ether) = Throw V2.MAX_80_PERCENT_OF_RESERVE
   <-> 160 * ether * 10 >= v2_reserveOut v2_reference_pool true * 8).
Proof.
  split.
  - apply (proj1 reserve_fraction_caps v1_reference_pool true (190 * ether));
      vm_compute; reflexivity.
  - apply (proj2 reserve_fraction_caps v2_reference_pool true (160 * ether));
      vm_compute; reflexivity.
Defined.

(** C4 as stated fails for a fee above the denominator: on the overcharged
    pool the call raises INSUFFICIENT_OUTPUT_AMOUNT although the ceiling
    [amountOutWithFee] is [0], below the cap. *)
Lemma reserve_fraction_caps_overcharged :
  0 < V1.reserve0 v1_overcharged_pool /\ 0 < V1.reserve1 v1_overcharged_pool /\
  V1.swapExactOutput v1_overcharged_pool true 1 = Throw V1.INSUFFICIENT_OUTPUT_AMOUNT /\
  ~ (v1_amountOutWithFee v1_overcharged_pool 1 * 10 >=
     v1_reserveOut v1_overcharged_pool true * 9).
Proof. repeat split; try (vm_compute; reflexivity). vm_compute. intros H. now apply H. Qed.

(** C5 (amended): with a positive amount, V1 [swapExactOutput] raises
    INSUFFICIENT_LIQUIDITY when either reserve is non-positive; V2
    [swapExactInput] and [swapExactOutput] raise it when the output-side
    reserve is non-positive, and never when that reserve is positive,
    whatever the input-side reserve. *)
Theorem liquidity_guards :
  (forall (pool : V1.BrownFiPoolState) (zeroToOne : bool) (amountOut : Z),
     0 < amountOut ->
     v1_reserveIn pool zeroToOne <= 0 \/ v1_reserveOut pool zeroToOne <= 0 ->
     V1.swapExactOutput pool zeroToOne amountOut = Throw V1.INSUFFICIENT_LIQUIDITY)
  /\
  (forall (pool : V2.BrownFiV2PoolState) (zeroToOne : bool) (amount : Z),
     0 < amount -> v2_reserveOut pool zeroToOne <= 0 ->
     V2.swapExactInput pool zeroToOne amount = Throw V2.INSUFFICIENT_LIQUIDITY /\
     V2.swapExactOutput pool zeroToOne amount = Throw V2.INSUFFICIENT_LIQUIDITY)
  /\
  (forall (pool : V2.BrownFiV2PoolState) (zeroToOne : bool) (amount : Z),
     0 < v2_reserveOut pool zeroToOne ->
     V2.swapExactInput pool zeroToOne amount <> Throw V2.INSUFFICIENT_LIQUIDITY /\
     V2.swapExactOutput pool zeroToOne amount <> Throw V2.INSUFFICIENT_LIQUIDITY).
Proof.
  split; [|split].
  - intros pool z a Ha Hr. now apply v1_swapExactOutput_liquidity.
  - intros pool z a Ha Hr. split.
    + now apply v2_swapExactInput_liquidity.
    + now apply v2_swapExactOutput_liquidity.
  - intros pool z a Hr. split.
    + now apply v2_swapExactInput_no_liquidity_error.
    + now apply v2_swapExactOutput_no_liquidity_error.
Qed.

Lemma liquidity_guards_witness :
  V1.swapExactOutput (v1_pool 0 (200 * ether) (2 * V1.Q128) 25 (2 * V1.Q128)) true 1
    = Throw V1.INSUFFICIENT_LIQUIDITY
  /\
  V2.swapExactInput v2_one_sided_pool false 1 = Throw V2.INSUFFICIENT_LIQUIDITY
  /\
  V2.swapExactOutput v2_one_sided_pool true 1 <> Throw V2.INSUFFICIENT_LIQUIDITY.
Proof.
  split; [|split].
  - apply (proj1 liquidity_guards); [lia | left; vm_compute; discriminate].
  - apply (proj1 (proj2 liquidity_guards) v2_one_sided_pool false 1);
      [lia | vm_compute; discriminate].
  - apply (proj2 (proj2 liquidity_guards) v2_one_sided_pool true 1).
    vm_compute. reflexivity.
Defined.

(** C5 as stated fails on V2: the input-side reserve of the one-sided pool
    is zero, and [swapExactInput] still returns a quote. *)
Lemma liquidity_guards_one_sided :
  v2_reserveIn v2_one_sided_pool true <= 0 /\
  0 < 10 * ether /\
  V2.swapExactInput v2_one_sided_pool true (10 * ether) = Return 18140589569160997731 /\
  V2.swapExactInput v2_one_sided_pool true (10 * ether) <> Throw V2.INSUFFICIENT_LIQUIDITY.
Proof.
  repeat split; try (vm_compute; reflexivity); vm_compute; discriminate.
Qed.

(** C7 (amended): [getSkewnessPrice] returns [(priceA, priceB)] unchanged
    when [lambda = 0], and for every [lambda] when the notional values are
    equal and not zero. *)
Theorem getSkewnessPrice_unchanged :
  (forall priceA priceB reserveA reserveB : Z,
     V2.getSkewnessPrice priceA priceB reserveA reserveB 0 = Return (priceA, priceB))
  /\
  (forall priceA priceB reserveA reserveB lambda : Z,
     reserveA * priceA = reserveB * priceB ->
     reserveA * priceA <> 0 ->
     V2.getSkewnessPrice priceA priceB reserveA reserveB lambda = Return (priceA, priceB)).
Proof.
  split.
  - intros. apply getSkewnessPrice_lambda_zero.
  - intros. now apply getSkewnessPrice_balanced.
Qed.

Lemma getSkewnessPrice_unchanged_witness :
  V2.getSkewnessPrice (2 * V2.Q64) V2.Q64 (100 * ether) (200 * ether) (V2.Q64 / 2)
  = Return (2 * V2.Q64, V2.Q64).
Proof.
  apply (proj2 getSkewnessPrice_unchanged); vm_compute; [reflexivity | discriminate].
Defined.

(** C7 as stated fails on an empty pool: the notional values are equal
    (both zero) and, with [lambda <> 0], the skew division is by zero. *)
Lemma getSkewnessPrice_empty_pool :
  0 * V2.Q64 = 0 * V2.Q64 /\
  V2.getSkewnessPrice V2.Q64 V2.Q64 0 0 (V2.Q64 / 2) = Throw RangeError /\
  V2.getSkewnessPrice V2.Q64 V2.Q64 0 0 (V2.Q64 / 2) <> Return (V2.Q64, V2.Q64).
Proof. repeat split; try (vm_compute; reflexivity). vm_compute. discriminate. Qed.

(** C8: V1 [swapExactInput] returns its amount unchanged for every pool,
    direction and amount (zero and negative ones too), and raises nothing. *)
Theorem v1_swapExactInput_identity (pool : V1.BrownFiPoolState)
    (zeroToOne : bool) (amountIn : Z) :
  V1.swapExactInput pool zeroToOne amountIn = Return amountIn.
Proof. reflexivity. Qed.

(** C10: when the output token has at most 18 decimals and the guards of V2
    [swapExactOutput] pass, the rescaled reserve exceeds the rescaled amount,
    the divisor [Q64 * (parsedReserveOut - parsedAmountOut)] is positive and
    the price-impact division does not raise; with more than 18 decimals the
    guards can pass while both rescale to the same value, and the call then
    raises the [RangeError] of a division by zero. *)
Theorem price_impact_divisor :
  (forall (pool : V2.BrownFiV2PoolState) (zeroToOne : bool) (amountOut : Z),
     v2_tokenOutDecimals pool zeroToOne <= 18 ->
     0 < amountOut -> 0 < v2_reserveOut pool zeroToOne ->
     amountOut * 10 < v2_reserveOut pool zeroToOne * 8 ->
     exists parsedAmountOut parsedReserveOut : Z,
       V2.parseRawToDefaultDecimals (v2_tokenOutDecimals pool zeroToOne) amountOut
         = Return parsedAmountOut /\
       V2.parseRawToDefaultDecimals (v2_tokenOutDecimals pool zeroToOne)
         (v2_reserveOut pool zeroToOne) = Return parsedReserveOut /\
       parsedAmountOut < parsedReserveOut /\
       0 < V2.Q64 * (parsedReserveOut - parsedAmountOut) /\
       V2.mulDiv (V2.kappa pool * V2.Q64) parsedAmountOut
                 (V2.Q64 * (parsedReserveOut - parsedAmountOut)) <> Throw RangeError)
  /\
  (exists (pool : V2.BrownFiV2PoolState) (zeroToOne : bool) (amountOut : Z),
     18 < v2_tokenOutDecimals pool zeroToOne /\
     0 < amountOut /\ 0 < v2_reserveOut pool zeroToOne /\
     amountOut * 10 < v2_reserveOut pool zeroToOne * 8 /\
     V2.parseRawToDefaultDecimals (v2_tokenOutDecimals pool zeroToOne) amountOut =
     V2.parseRawToDefaultDecimals (v2_tokenOutDecimals pool zeroToOne)
       (v2_reserveOut pool zeroToOne) /\
     V2.swapExactOutput pool zeroToOne amountOut = Throw RangeError).
Proof.
  split.
  - intros pool z a Hd Ha Hr Hc.
    exists (Spec.toCanonicalScale (v2_tokenOutDecimals pool z) a),
           (Spec.toCanonicalScale (v2_tokenOutDecimals pool z) (v2_reserveOut pool z)).
    pose proof (v2_price_impact_divisor_pos pool z a Hd Ha Hr Hc) as Hlt.
    pose proof Q64_pos.
    rewrite !parseRawToDefaultDecimals_nonneg by lia.
    repeat split; try assumption; [nia|].
    unfold V2.mulDiv. rewrite bigdiv_nonzero by nia. discriminate.
  - exists v2_19_decimals_pool, true, 1.
    repeat split; vm_compute; reflexivity.
Qed.

Lemma price_impact_divisor_witness :
  exists parsedAmountOut parsedReserveOut : Z,
    V2.parseRawToDefaultDecimals (v2_tokenOutDecimals v2_reference_pool true) (10 * ether)
      = Return parsedAmountOut /\
    V2.parseRawToDefaultDecimals (v2_tokenOutDecimals v2_reference_pool true)
      (v2_reserveOut v2_reference_pool true) = Return parsedReserveOut /\
    parsedAmountOut < parsedReserveOut /\
    0 < V2.Q64 * (parsedReserveOut - parsedAmountOut) /\
    V2.mulDiv (V2.kappa v2_reference_pool * V2.Q64) parsedAmountOut
              (V2.Q64 * (parsedReserveOut - parsedAmountOut)) <> Throw RangeError.
Proof.
  apply (proj1 price_impact_divisor v2_reference_pool true (10 * ether));
    vm_compute; solve [reflexivity | discriminate].
Defined.

(** ** V2 [swapExactInput] against the formula *)

Lemma skew_magnitude_bounds (vA vB l : Z) :
  0 <= vA -> 0 <= vB -> 0 <= l -> vA + vB <> 0 ->
  0 <= Z.abs (vA - vB) * l / (vA + vB) <= l.
Proof.
  intros HA HB Hl Hs. split.
  - apply Z.div_pos; [|lia]. pose proof (Z.abs_nonneg (vA - vB)). nia.
  - apply Z.div_le_upper_bound; [lia|].
    assert (Z.abs (vA - vB) <= vA + vB) by lia. nia.
Qed.

Lemma getSkewnessPrice_spec (pA pB rA rB l : Z) :
  0 <= pA -> 0 <= pB -> 0 <= rA -> 0 <= rB -> 0 <= l <= V2.Q64 ->
  V2.getSkewnessPrice pA pB rA rB l =
  if negb (l =? 0) && (rA * pA + rB * pB =? 0) then Throw RangeError
  else Return (Spec.skewPrices pA pB rA rB l).
Proof.
  intros HpA HpB HrA HrB Hl. unfold V2.getSkewnessPrice, Spec.skewPrices.
  destruct (l =? 0); [reflexivity|]. cbn [negb andb].
  assert (HvA : 0 <= rA * pA) by nia. assert (HvB : 0 <= rB * pB) by nia.
  set (vA := rA * pA) in *. set (vB := rB * pB) in *.
  unfold V2.mulDiv, Spec.mulDivFloor. rewrite Z.geb_leb.
  replace (if vB <=? vA then vA - vB else vB - vA) with (Z.abs (vA - vB))
    by (destruct (Z.leb_spec vB vA); lia).
  destruct (Z.eqb_spec (vA + vB) 0) as [Hz|Hnz].
  - rewrite Hz. reflexivity.
  - pose proof (skew_magnitude_bounds vA vB l HvA HvB (proj1 Hl) Hnz) as Hs.
    pose proof (Z.abs_nonneg (vA - vB)). pose proof Q64_pos.
    rewrite bigdiv_pos by nia. cbn [bind].
    set (sk := Z.abs (vA - vB) * l / (vA + vB)) in *.
    destruct (vB <=? vA); rewrite !bigdiv_pos by nia; reflexivity.
Qed.

Lemma skewPrices_nonneg (pA pB rA rB l : Z) :
  0 <= pA -> 0 <= pB -> 0 <= rA -> 0 <= rB -> 0 <= l <= V2.Q64 ->
  l = 0 \/ rA * pA + rB * pB <> 0 ->
  0 <= fst (Spec.skewPrices pA pB rA rB l) /\
  0 <= snd (Spec.skewPrices pA pB rA rB l).
Proof.
  intros HpA HpB HrA HrB Hl Hcase. unfold Spec.skewPrices.
  destruct (Z.eqb_spec l 0) as [|Hl0]; [cbn; lia|].
  destruct Hcase as [|Hnz]; [contradiction|].
  assert (HvA : 0 <= rA * pA) by nia. assert (HvB : 0 <= rB * pB) by nia.
  pose proof (skew_magnitude_bounds _ _ l HvA HvB (proj1 Hl) Hnz) as Hs.
  unfold Spec.mulDivFloor. pose proof Q64_pos.
  set (sk := Z.abs (rA * pA - rB * pB) * l / (rA * pA + rB * pB)) in *.
  destruct (rB * pB <=? rA * pA); cbn [fst snd];
    split; apply Z.div_pos; nia.
Qed.

Lemma computeLeftSqrt_eq (e pI pO R : Z) :
  0 <= e * pI -> 0 <= R * pO ->
  V2.computeLeftSqrt e pI pO R =
  Return (Z.abs (Spec.mulDivFloor e pI V2.Q64 - Spec.mulDivFloor R pO V2.Q64) ^ 2).
Proof.
  intros H1 H2. unfold V2.computeLeftSqrt, V2.mulDiv, Spec.mulDivFloor.
  pose proof Q64_pos.
  rewrite !bigdiv_pos by lia. cbn [bind]. rewrite Z.gtb_ltb.
  set (u := e * pI / V2.Q64). set (w := R * pO / V2.Q64).
  rewrite Z.pow_2_r.
  destruct (Z.ltb_spec w u); cbn [bind]; fold u w; f_equal.
  - now rewrite Z.abs_eq by lia.
  - rewrite Z.abs_neq by lia. ring.
Qed.

Lemma computeRightSqrt_eq (e pI pO R k : Z) :
  0 <= pI * pO * k -> 0 <= R * e ->
  V2.computeRightSqrt e pI pO R k =
  Return (Spec.mulDivFloor (pI * pO) k (V2.Q64 ^ 2) * Spec.mulDivFloor (R * e) 2 V2.Q64).
Proof.
  intros H1 H2. unfold V2.computeRightSqrt, V2.mulDiv, Spec.mulDivFloor.
  pose proof Q64_pos. rewrite Z.pow_2_r.
  rewrite !bigdiv_pos by nia. reflexivity.
Qed.

(** The curve and the final rescaling, on non-negative canonical operands. *)
Lemma v2_curve_eq (kappa R e pI pO dOut : Z) :
  0 <= R -> 0 <= e -> 0 <= pI -> 0 <= pO -> 0 <= kappa ->
  bind
    (if kappa =? 2 * V2.Q64 then
       V2.mulDiv (R * e) pI (pO * R + e * pI)
     else
       bind (V2.computeLeftSqrt e pI pO R) (fun leftSqrt =>
       bind (V2.computeRightSqrt e pI pO R kappa) (fun rightSqrt =>
       bind (V2.mulDiv pO (2 * V2.Q64 - kappa) V2.Q64) (fun denominator =>
       bind (V2.sqrt (leftSqrt + rightSqrt)) (fun sqrtTerm =>
       bigdiv (V2.computeLeftNumerator e pI pO R - V2.Q64 * sqrtTerm) denominator)))))
    (fun amountOut => V2.parseDefaultDecimalsToRaw dOut amountOut)
  =
  if Spec.canonicalOutDivisor Z.quot kappa R e pI pO =? 0 then Throw RangeError
  else Return (Spec.fromCanonicalScaleWith Z.quot dOut
                 (Spec.canonicalOut Z.quot kappa R e pI pO)).
Proof.
  intros HR He HpI HpO Hk. pose proof Q64_pos.
  unfold Spec.canonicalOutDivisor, Spec.canonicalOut.
  destruct (kappa =? 2 * V2.Q64).
  - unfold V2.mulDiv, bigdiv, Spec.mulDivFloor.
    destruct (Z.eqb_spec (pO * R + e * pI) 0) as [|Hnz]; [reflexivity|].
    cbn [bind]. rewrite parseDefaultDecimalsToRaw_eq.
    unfold Spec.fromCanonicalScaleWith.
    assert (0 < pO * R + e * pI) by nia.
    now rewrite (Z.quot_div_nonneg (R * e * pI)) by nia.
  - rewrite computeLeftSqrt_eq by nia. cbn [bind].
    rewrite computeRightSqrt_eq by nia. cbn [bind].
    unfold V2.mulDiv at 1. rewrite bigdiv_nonzero by lia. cbn [bind].
    rewrite sqrt_eq_Zsqrt.
    + cbn [bind]. unfold bigdiv, V2.computeLeftNumerator, Spec.isqrtFloor.
      destruct (Z.quot (pO * (2 * V2.Q64 - kappa)) V2.Q64 =? 0); [reflexivity|].
      cbn [bind]. rewrite parseDefaultDecimalsToRaw_eq. reflexivity.
    + unfold Spec.mulDivFloor.
      assert (0 <= pI * pO * kappa / V2.Q64 ^ 2) by (apply Z.div_pos; nia).
      assert (0 <= R * e * 2 / V2.Q64) by (apply Z.div_pos; nia).
      pose proof (Z.pow_even_nonneg
                    (Z.abs (e * pI / V2.Q64 - R * pO / V2.Q64)) 2
                    ltac:(exists 1; reflexivity)).
      nia.
Qed.

Lemma effIn_eq (a fee : Z) :
  0 <= a -> 0 <= fee ->
  V2.mulDiv a V2.PRECISION (V2.PRECISION + fee) =
  Return (Spec.mulDivFloor a (10 ^ 8) (10 ^ 8 + fee)) /\
  0 <= Spec.mulDivFloor a (10 ^ 8) (10 ^ 8 + fee).
Proof.
  intros Ha Hf. unfold V2.mulDiv, Spec.mulDivFloor, V2.PRECISION.
  change (10 ^ 8) with 100000000. split.
  - now rewrite bigdiv_pos by lia.
  - apply Z.div_pos; lia.
Qed.

Lemma v2_swapExactInput_eq (pool : V2.BrownFiV2PoolState) (zeroToOne : bool)
    (amountIn : Z) :
  wf_v2 pool -> 0 < amountIn -> 0 < v2_reserveOut pool zeroToOne ->
  V2.swapExactInput pool zeroToOne amountIn =
  v2_swapExactInput_closed_form Z.quot pool zeroToOne amountIn.
Proof.
  intros (Hr0 & Hr1 & Hp0 & Hp1 & Hk & Hl & Hf) Ha Hr.
  unfold V2.swapExactInput, v2_swapExactInput_closed_form, v2_reserveOut,
    v2_tokenInDecimals, v2_tokenOutDecimals, v2_priceIn, v2_priceOut in *.
  destruct zeroToOne; ztest; cbv beta iota zeta;
    rewrite !parseRawToDefaultDecimals_nonneg by lia; cbn [bind];
    (rewrite getSkewnessPrice_spec;
       [| try assumption; apply toCanonicalScale_nonneg; assumption ..]);
    match goal with
    | |- context [Spec.skewPrices ?a ?b ?c ?d ?l] =>
        pose proof (skewPrices_nonneg a b c d l) as Hsk;
        destruct (negb (l =? 0) && (c * a + d * b =? 0)) eqn:Hdiv;
          [reflexivity|];
        destruct (Spec.skewPrices a b c d l) as [pI pO]
    end;
    cbn [bind fst snd] in *;
    (destruct Hsk as [HpI HpO];
       [ try assumption; apply toCanonicalScale_nonneg; assumption ..
       | apply andb_false_iff in Hdiv; destruct Hdiv as [Hd|Hd];
           [ left; apply negb_false_iff in Hd; now apply Z.eqb_eq in Hd
           | right; now apply Z.eqb_neq in Hd ]
       | ]);
    match goal with
    | |- context [V2.mulDiv ?a V2.PRECISION (V2.PRECISION + ?f)] =>
        destruct (effIn_eq a f) as [Heq He];
          [ apply toCanonicalScale_nonneg; lia | assumption | rewrite Heq ]
    end;
    cbn [bind];
    apply v2_curve_eq; try assumption; apply toCanonicalScale_nonneg; lia.
Qed.

(** The two pairings of prices and reserves agree for direction zeroToOne,
    where token0 is the input side, and when the skew is off. *)
Lemma v2_closed_form_is_spec (div : Z -> Z -> Z) (pool : V2.BrownFiV2PoolState)
    (zeroToOne : bool) (amountIn : Z) :
  zeroToOne = true \/ V2.lambda pool = 0 ->
  v2_swapExactInput_closed_form div pool zeroToOne amountIn =
  v2_quoteByInput_spec div pool zeroToOne amountIn.
Proof.
  intros [-> | Hl].
  - reflexivity.
  - unfold v2_swapExactInput_closed_form, v2_quoteByInput_spec, Spec.skewPrices.
    rewrite Hl. reflexivity.
Qed.

(** C2 (amended): on a V2 pool whose numeric fields are non-negative and
    whose lambda is at most Q64, for [amountIn > 0] and [reserveOut > 0], in
    direction zeroToOne or with [lambda = 0], [swapExactInput] computes the
    stated formula with the quotients by [denominator], of [denominator] and
    of the final shrinking truncated toward zero, and raises a [RangeError]
    when a divisor is zero. *)
Theorem v2_swapExactInput_formula (pool : V2.BrownFiV2PoolState)
    (zeroToOne : bool) (amountIn : Z) :
  wf_v2 pool -> 0 < amountIn -> 0 < v2_reserveOut pool zeroToOne ->
  zeroToOne = true \/ V2.lambda pool = 0 ->
  V2.swapExactInput pool zeroToOne amountIn =
  v2_quoteByInput_spec Z.quot pool zeroToOne amountIn.
Proof.
  intros Hwf Ha Hr Hdir.
  rewrite v2_swapExactInput_eq by assumption.
  now apply v2_closed_form_is_spec.
Qed.

Lemma v2_swapExactInput_formula_witness :
  V2.swapExactInput
    (v2_pool (100 * ether) (150 * ether) V2.Q64 (V2.Q64 / 2) 250000 18 6
       (2 * V2.Q64) V2.Q64) true (10 * ether) =
  v2_quoteByInput_spec Z.quot
    (v2_pool (100 * ether) (150 * ether) V2.Q64 (V2.Q64 / 2) 250000 18 6
       (2 * V2.Q64) V2.Q64) true (10 * ether).
Proof.
  apply (v2_swapExactInput_formula
           (v2_pool (100 * ether) (150 * ether) V2.Q64 (V2.Q64 / 2) 250000 18 6
              (2 * V2.Q64) V2.Q64) true (10 * ether)).
  - repeat split; vm_compute; discriminate.
  - vm_compute. reflexivity.
  - vm_compute. reflexivity.
  - left. reflexivity.
Defined.

(** C2 as stated fails where the numerator of the square-root form is
    negative: on the steep pool it is [-1] over a denominator of [2]; the
    code truncates the quotient to [0], floor division gives [-1]. *)
Lemma v2_swapExactInput_not_floor :
  wf_v2 v2_steep_pool /\ 0 < 2 ^ 63 /\ 0 < v2_reserveOut v2_steep_pool true /\
  V2.swapExactInput v2_steep_pool true (2 ^ 63) = Return 0 /\
  v2_quoteByInput_spec Z.div v2_steep_pool true (2 ^ 63) = Return (-1) /\
  V2.swapExactInput v2_steep_pool true (2 ^ 63) <>
    v2_quoteByInput_spec Z.div v2_steep_pool true (2 ^ 63).
Proof.
  repeat split; try (vm_compute; reflexivity); vm_compute; discriminate.
Qed.

(** In direction oneToZero with [lambda <> 0] the code pairs the price of
    token1 with the reserve of token0 and the price of token0 with the
    reserve of token1.  On the balanced pool the formula of the
    specification applies no skew and quotes [4750593824228028503], the quote
    of [lambda = 0]; the code applies a skew and quotes
    [8477339419628301270], while [spotPriceWithoutFee] stays [0.5]. *)
Lemma v2_swapExactInput_oneToZero_pairing :
  V2.swapExactInput v2_balanced_skewed_pool false (10 * ether)
    = Return 8477339419628301270 /\
  v2_quoteByInput_spec Z.quot v2_balanced_skewed_pool false (10 * ether)
    = Return 4750593824228028503 /\
  V2.swapExactInput v2_reference_pool false (10 * ether)
    = Return 4750593824228028503 /\
  V2.spotPriceWithoutFee v2_balanced_skewed_pool false = Return double_0_5.
Proof. repeat split; vm_compute; reflexivity. Qed.

(** ** Monotonicity *)

Lemma div_frac_mono (n1 d1 n2 d2 : Z) :
  0 <= n1 -> 0 < d1 -> 0 < d2 -> n1 * d2 <= n2 * d1 -> n1 / d1 <= n2 / d2.
Proof.
  intros Hn Hd1 Hd2 Hcross.
  apply Z.div_le_lower_bound; [assumption|].
  pose proof (Z.mul_div_le n1 d1 Hd1) as Hq.
  assert (Hq0 : 0 <= n1 / d1) by (apply Z.div_pos; lia).
  assert (H1 : d1 * (d2 * (n1 / d1)) <= d1 * n2); [|nia].
  replace (d1 * (d2 * (n1 / d1))) with (d2 * (d1 * (n1 / d1))) by ring.
  assert (d2 * (d1 * (n1 / d1)) <= d2 * n1) by (apply Z.mul_le_mono_nonneg_l; lia).
  lia.
Qed.

Lemma mulDivCeil_least (a b d c : Z) :
  0 < d -> a * b <= d * c -> Spec.mulDivCeil a b d <= c.
Proof.
  intros Hd Hle. pose proof (mulDivCeil_spec a b d Hd) as [Hlo _].
  destruct (Z_le_gt_dec (Spec.mulDivCeil a b d) c); [assumption|]. nia.
Qed.

(** The ceiling grows with the product and as a positive divisor shrinks. *)
Lemma mulDivCeil_frac_mono (a b d a' b' d' : Z) :
  0 <= a * b -> a * b <= a' * b' -> 0 < d' <= d ->
  Spec.mulDivCeil a b d <= Spec.mulDivCeil a' b' d'.
Proof.
  intros Hp Hle Hd.
  pose proof (mulDivCeil_spec a' b' d' ltac:(lia)) as [_ Hhi].
  pose proof (mulDivCeil_nonneg a' b' d' ltac:(lia) ltac:(lia)).
  apply mulDivCeil_least; [lia|]. nia.
Qed.

Section V1_monotone.

Variable pool : V1.BrownFiPoolState.
Variable zeroToOne : bool.

Hypothesis fee_lt : V1.fee pool < 10000.
Hypothesis kappa_nonneg : 0 <= V1.kappa pool.
Hypothesis price_nonneg : 0 <= V1.oraclePrice pool.

(** What a returned quote says about its arguments. *)
Lemma v1_swapExactOutput_Return_inv (amountOut r : Z) :
  V1.swapExactOutput pool zeroToOne amountOut = Return r ->
  0 < amountOut /\
  0 < v1_reserveIn pool zeroToOne /\ 0 < v1_reserveOut pool zeroToOne /\
  v1_amountOutWithFee pool amountOut * 10 < v1_reserveOut pool zeroToOne * 9 /\
  (zeroToOne = true -> 0 < V1.oraclePrice pool).
Proof.
  intros Hret.
  assert (Ha : 0 < amountOut).
  { destruct (Z_le_gt_dec amountOut 0); [|lia]. exfalso. revert Hret.
    unfold V1.swapExactOutput. destruct zeroToOne; ztest; discriminate. }
  assert (Hres : 0 < v1_reserveIn pool zeroToOne /\ 0 < v1_reserveOut pool zeroToOne).
  { destruct (Z_le_gt_dec (v1_reserveIn pool zeroToOne) 0);
      [rewrite v1_swapExactOutput_liquidity in Hret by (assumption || now left);
       discriminate|].
    destruct (Z_le_gt_dec (v1_reserveOut pool zeroToOne) 0);
      [rewrite v1_swapExactOutput_liquidity in Hret by (assumption || now right);
       discriminate|].
    lia. }
  destruct Hres as [Hin Hout].
  assert (Hcap : v1_amountOutWithFee pool amountOut * 10
                 < v1_reserveOut pool zeroToOne * 9).
  { destruct (Z_lt_ge_dec (v1_amountOutWithFee pool amountOut * 10)
                          (v1_reserveOut pool zeroToOne * 9)); [assumption|].
    rewrite v1_swapExactOutput_cap in Hret by (assumption || lia). discriminate. }
  repeat split; try assumption.
  intros ->. destruct (Z.eq_dec (V1.oraclePrice pool) 0) as [Hz|]; [|lia].
  exfalso. revert Hret.
  unfold v1_reserveIn, v1_reserveOut, v1_amountOutWithFee, V1.swapExactOutput in *.
  unfold V1.FEE_DENOMINATOR. ztest. cbn [orb].
  rewrite mulDivRoundingUp_ceil by lia. cbn [bind]. ztest.
  rewrite mulDivRoundingUp_ceil by lia. cbn [bind].
  rewrite Hz. discriminate.
Qed.

Lemma v1_amountOutWithFee_mono (a1 a2 : Z) :
  a1 <= a2 -> v1_amountOutWithFee pool a1 <= v1_amountOutWithFee pool a2.
Proof.
  intros H. unfold v1_amountOutWithFee. apply mulDivCeil_mono; lia.
Qed.

Lemma v1_quoteByOutput_spec_mono (a1 a2 : Z) :
  0 < a1 -> a1 <= a2 ->
  v1_amountOutWithFee pool a2 * 10 < v1_reserveOut pool zeroToOne * 9 ->
  (zeroToOne = true -> 0 < V1.oraclePrice pool) ->
  v1_quoteByOutput_spec pool zeroToOne a1 <= v1_quoteByOutput_spec pool zeroToOne a2.
Proof.
  intros Ha1 Hle Hcap HP. unfold v1_quoteByOutput_spec.
  pose proof (v1_amountOutWithFee_mono a1 a2 Hle) as Hw.
  assert (Hw1 : 0 < v1_amountOutWithFee pool a1)
    by (unfold v1_amountOutWithFee; apply mulDivCeil_pos; lia).
  set (w1 := v1_amountOutWithFee pool a1) in *.
  set (w2 := v1_amountOutWithFee pool a2) in *.
  set (rO := v1_reserveOut pool zeroToOne) in *.
  set (k := if V1.kappa pool =? 0 then V1.Q128 else V1.kappa pool).
  pose proof Q128_pos as HQ.
  assert (Hk : 0 <= k) by (subst k; destruct (V1.kappa pool =? 0); lia).
  assert (Hr : Spec.mulDivCeil k w1 (rO - w1) <= Spec.mulDivCeil k w2 (rO - w2))
    by (apply mulDivCeil_frac_mono; nia).
  assert (Hr1 : 0 <= Spec.mulDivCeil k w1 (rO - w1))
    by (apply mulDivCeil_nonneg; nia).
  set (r1 := Spec.mulDivCeil k w1 (rO - w1)) in *.
  set (r2 := Spec.mulDivCeil k w2 (rO - w2)) in *.
  destruct zeroToOne.
  - specialize (HP eq_refl).
    assert (Hav : Spec.mulDivCeil (2 * V1.Q128 + r1) V1.Q128 (V1.oraclePrice pool * 2)
                  <= Spec.mulDivCeil (2 * V1.Q128 + r2) V1.Q128 (V1.oraclePrice pool * 2))
      by (apply mulDivCeil_mono; nia).
    assert (Hav1 : 0 <= Spec.mulDivCeil (2 * V1.Q128 + r1) V1.Q128
                          (V1.oraclePrice pool * 2))
      by (apply mulDivCeil_nonneg; nia).
    apply mulDivCeil_mono; [lia|]. nia.
  - assert (Hav : Spec.mulDivCeil (V1.oraclePrice pool) (2 * V1.Q128 + r1) (2 * V1.Q128)
                  <= Spec.mulDivCeil (V1.oraclePrice pool) (2 * V1.Q128 + r2) (2 * V1.Q128))
      by (apply mulDivCeil_mono; nia).
    assert (Hav1 : 0 <= Spec.mulDivCeil (V1.oraclePrice pool) (2 * V1.Q128 + r1)
                          (2 * V1.Q128))
      by (apply mulDivCeil_nonneg; nia).
    apply mulDivCeil_mono; [lia|]. nia.
Qed.

Lemma v1_swapExactOutput_mono (a1 a2 r1 r2 : Z) :
  a1 <= a2 ->
  V1.swapExactOutput pool zeroToOne a1 = Return r1 ->
  V1.swapExactOutput pool zeroToOne a2 = Return r2 ->
  r1 <= r2.
Proof.
  intros Hle H1 H2.
  destruct (v1_swapExactOutput_Return_inv a1 r1 H1) as (Ha1 & Hin & Hout & Hc1 & HP).
  destruct (v1_swapExactOutput_Return_inv a2 r2 H2) as (Ha2 & _ & _ & Hc2 & _).
  rewrite v1_swapExactOutput_eq in H1, H2 by assumption.
  injection H1 as <-. injection H2 as <-.
  now apply v1_quoteByOutput_spec_mono.
Qed.

End V1_monotone.

(** The arithmetic of V2 [swapExactOutput] past the guards and the skew. *)
Lemma v2_out_curve_eq (kappa fee ac Rc pI pO dIn : Z) :
  0 <= kappa -> 0 <= fee -> 0 <= ac <= Rc -> 0 <= pI -> 0 <= pO ->
  bind (V2.mulDiv (kappa * V2.Q64) ac (V2.Q64 * (Rc - ac))) (fun priceImpact =>
  bind (V2.mulDiv pO (priceImpact + V2.Q64 * 2) pI) (fun inner =>
  bind (V2.mulDiv ac inner (V2.Q64 * 2)) (fun amountIn =>
  bind (V2.mulDiv amountIn (V2.PRECISION + fee) V2.PRECISION) (fun amountIn' =>
  V2.parseDefaultDecimalsToRaw dIn amountIn'))))
  =
  if (V2.Q64 * (Rc - ac) =? 0) || (pI =? 0) then Throw RangeError
  else Return (Spec.fromCanonicalScale dIn (Spec.canonicalIn kappa fee ac Rc pI pO)).
Proof.
  intros Hk Hf Ha HpI HpO. pose proof Q64_pos as HQ.
  unfold Spec.canonicalIn, V2.mulDiv, Spec.mulDivFloor, V2.PRECISION.
  change (10 ^ 8) with 100000000.
  unfold bigdiv at 1.
  destruct (Z.eqb_spec (V2.Q64 * (Rc - ac)) 0) as [|Hd]; [reflexivity|].
  cbn [bind orb].
  rewrite (Z.quot_div_nonneg (kappa * V2.Q64 * ac)) by nia.
  set (imp := kappa * V2.Q64 * ac / (V2.Q64 * (Rc - ac))).
  assert (Himp : 0 <= imp) by (apply Z.div_pos; nia).
  unfold bigdiv at 1.
  destruct (Z.eqb_spec pI 0) as [|HpI0]; [reflexivity|].
  cbn [bind].
  rewrite (Z.quot_div_nonneg (pO * (imp + V2.Q64 * 2))) by nia.
  replace (imp + V2.Q64 * 2) with (imp + 2 * V2.Q64) by ring.
  set (inner := pO * (imp + 2 * V2.Q64) / pI).
  assert (Hinner : 0 <= inner) by (apply Z.div_pos; nia).
  rewrite bigdiv_pos by nia. cbn [bind].
  replace (V2.Q64 * 2) with (2 * V2.Q64) by ring.
  set (ai := ac * inner / (2 * V2.Q64)).
  assert (Hai : 0 <= ai) by (apply Z.div_pos; nia).
  rewrite bigdiv_pos by nia. cbn [bind].
  apply parseDefaultDecimalsToRaw_nonneg. apply Z.div_pos; nia.
Qed.

Lemma canonicalIn_mono (kappa fee a1 a2 Rc pI pO : Z) :
  0 <= kappa -> 0 <= fee -> 0 <= a1 <= a2 -> a2 < Rc -> 0 < pI -> 0 <= pO ->
  Spec.canonicalIn kappa fee a1 Rc pI pO <= Spec.canonicalIn kappa fee a2 Rc pI pO.
Proof.
  intros Hk Hf Ha HR HpI HpO. pose proof Q64_pos as HQ.
  unfold Spec.canonicalIn, Spec.mulDivFloor. change (10 ^ 8) with 100000000.
  assert (HK : 0 <= kappa * V2.Q64) by (apply Z.mul_nonneg_nonneg; lia).
  set (K := kappa * V2.Q64) in *.
  assert (HD2 : 0 < V2.Q64 * (Rc - a2)) by (apply Z.mul_pos_pos; lia).
  assert (HD : V2.Q64 * (Rc - a2) <= V2.Q64 * (Rc - a1))
    by (apply Z.mul_le_mono_nonneg_l; lia).
  set (D1 := V2.Q64 * (Rc - a1)) in *. set (D2 := V2.Q64 * (Rc - a2)) in *.
  assert (HN1 : 0 <= K * a1) by (apply Z.mul_nonneg_nonneg; lia).
  assert (HN : K * a1 <= K * a2) by (apply Z.mul_le_mono_nonneg_l; lia).
  assert (Himp : K * a1 / D1 <= K * a2 / D2).
  { transitivity (K * a1 / D2).
    - apply Z.div_le_compat_l; lia.
    - apply Z.div_le_mono; lia. }
  assert (Himp1 : 0 <= K * a1 / D1) by (apply Z.div_pos; lia).
  set (i1 := K * a1 / D1) in *. set (i2 := K * a2 / D2) in *.
  assert (Hin : pO * (i1 + 2 * V2.Q64) / pI <= pO * (i2 + 2 * V2.Q64) / pI).
  { apply Z.div_le_mono; [lia|]. apply Z.mul_le_mono_nonneg_l; lia. }
  assert (Hin1 : 0 <= pO * (i1 + 2 * V2.Q64) / pI).
  { apply Z.div_pos; [|lia]. apply Z.mul_nonneg_nonneg; lia. }
  set (n1 := pO * (i1 + 2 * V2.Q64) / pI) in *.
  set (n2 := pO * (i2 + 2 * V2.Q64) / pI) in *.
  assert (Hprod : a1 * n1 <= a2 * n2) by (apply Z.mul_le_mono_nonneg; lia).
  assert (Hai : a1 * n1 / (2 * V2.Q64) <= a2 * n2 / (2 * V2.Q64))
    by (apply Z.div_le_mono; lia).
  apply Z.div_le_mono; [lia|].
  apply Z.mul_le_mono_nonneg_r; lia.
Qed.

Section V2_monotone.

Variable pool : V2.BrownFiV2PoolState.
Variable zeroToOne : bool.
Hypothesis pool_wf : wf_v2 pool.

Let dIn := v2_tokenInDecimals pool zeroToOne.
Let dOut := v2_tokenOutDecimals pool zeroToOne.
Let rO := v2_reserveOut pool zeroToOne.
Let priceA := v2_priceIn pool zeroToOne.
Let priceB := v2_priceOut pool zeroToOne.
Let reserveA := Spec.toCanonicalScale (V2.token0Decimals pool) (V2.reserve0 pool).
Let reserveB := Spec.toCanonicalScale (V2.token1Decimals pool) (V2.reserve1 pool).
Let skewed := Spec.skewPrices priceA priceB reserveA reserveB (V2.lambda pool).
Let skew_fails :=
  negb (V2.lambda pool =? 0) && (reserveA * priceA + reserveB * priceB =? 0).

Lemma v2_skewed_nonneg : skew_fails = false -> 0 <= fst skewed /\ 0 <= snd skewed.
Proof.
  destruct pool_wf as (Hr0 & Hr1 & Hp0 & Hp1 & Hk & Hl & Hf).
  subst skew_fails skewed priceA priceB reserveA reserveB.
  unfold v2_priceIn, v2_priceOut. intros Hdiv.
  apply skewPrices_nonneg;
    try (destruct zeroToOne; assumption);
    try (apply toCanonicalScale_nonneg; assumption).
  apply andb_false_iff in Hdiv. destruct Hdiv as [Hd|Hd].
  - left. apply negb_false_iff in Hd. now apply Z.eqb_eq in Hd.
  - right. now apply Z.eqb_neq in Hd.
Qed.

(** Past its guards, on a well-formed pool, [swapExactOutput] is the
    formula of the specification or the [RangeError] of a zero divisor. *)
Lemma v2_swapExactOutput_eq (amountOut : Z) :
  0 < amountOut -> 0 < rO -> amountOut * 10 < rO * 8 ->
  V2.swapExactOutput pool zeroToOne amountOut =
  if skew_fails
     || (V2.Q64 * (Spec.toCanonicalScale dOut rO
                   - Spec.toCanonicalScale dOut amountOut) =? 0)
     || (fst skewed =? 0)
  then Throw RangeError
  else Return (v2_quoteByOutput_spec pool zeroToOne (fst skewed) (snd skewed) amountOut).
Proof.
  intros Ha Hr Hc. pose proof v2_skewed_nonneg as Hsk.
  destruct pool_wf as (Hr0 & Hr1 & Hp0 & Hp1 & Hk & Hl & Hf).
  subst skew_fails skewed priceA priceB reserveA reserveB dIn dOut rO.
  unfold V2.swapExactOutput, v2_quoteByOutput_spec, v2_reserveOut,
    v2_tokenInDecimals, v2_tokenOutDecimals, v2_priceIn, v2_priceOut in *.
  destruct zeroToOne; ztest; cbv beta iota zeta;
    rewrite !parseRawToDefaultDecimals_nonneg by lia; cbn [bind];
    (rewrite getSkewnessPrice_spec;
       [| try assumption; apply toCanonicalScale_nonneg; assumption ..]);
    match goal with
    | |- context [Spec.skewPrices ?a ?b ?c ?d ?l] =>
        destruct (negb (l =? 0) && (c * a + d * b =? 0));
          [reflexivity|];
        destruct (Spec.skewPrices a b c d l) as [pI pO]
    end;
    cbn [bind fst snd orb] in *;
    destruct (Hsk eq_refl) as [HpI HpO];
    apply v2_out_curve_eq; try assumption;
    (split; [apply toCanonicalScale_nonneg; lia | apply toCanonicalScale_mono; lia]).
Qed.

Lemma v2_swapExactOutput_Return_inv (amountOut r : Z) :
  V2.swapExactOutput pool zeroToOne amountOut = Return r ->
  0 < amountOut /\ 0 < rO /\ amountOut * 10 < rO * 8.
Proof.
  intros Hret.
  assert (Ha : 0 < amountOut).
  { destruct (Z_le_gt_dec amountOut 0); [|lia]. exfalso. revert Hret.
    unfold V2.swapExactOutput. ztest. discriminate. }
  assert (Hr : 0 < rO).
  { destruct (Z_le_gt_dec rO 0); [|lia].
    rewrite v2_swapExactOutput_liquidity in Hret by assumption. discriminate. }
  repeat split; try assumption.
  destruct (Z_lt_ge_dec (amountOut * 10) (rO * 8)); [assumption|].
  rewrite v2_swapExactOutput_cap in Hret by (assumption || lia). discriminate.
Qed.

Lemma v2_swapExactOutput_mono (a1 a2 r1 r2 : Z) :
  a1 <= a2 ->
  V2.swapExactOutput pool zeroToOne a1 = Return r1 ->
  V2.swapExactOutput pool zeroToOne a2 = Return r2 ->
  r1 <= r2.
Proof.
  intros Hle H1 H2.
  destruct (v2_swapExactOutput_Return_inv a1 r1 H1) as (Ha1 & Hr & Hc1).
  destruct (v2_swapExactOutput_Return_inv a2 r2 H2) as (Ha2 & _ & Hc2).
  rewrite v2_swapExactOutput_eq in H1, H2 by assumption.
  pose proof v2_skewed_nonneg as Hsk.
  destruct pool_wf as (Hr0 & Hr1 & Hp0 & Hp1 & Hk & Hl & Hf).
  destruct skew_fails; [discriminate|]. cbn [orb] in H1, H2.
  destruct (Hsk eq_refl) as [HpI HpO].
  destruct (Z.eqb_spec (V2.Q64 * (Spec.toCanonicalScale dOut rO
                                  - Spec.toCanonicalScale dOut a2)) 0) as [|Hd2];
    [discriminate|].
  destruct (Z.eqb_spec (V2.Q64 * (Spec.toCanonicalScale dOut rO
                                  - Spec.toCanonicalScale dOut a1)) 0) as [|Hd1];
    [discriminate|].
  cbn [orb] in H1, H2.
  destruct (Z.eqb_spec (fst skewed) 0) as [|HpI0]; [discriminate|].
  injection H1 as <-. injection H2 as <-.
  unfold v2_quoteByOutput_spec. apply fromCanonicalScale_mono.
  pose proof (toCanonicalScale_mono dOut a2 rO ltac:(lia)).
  pose proof (toCanonicalScale_mono dOut a1 a2 Hle).
  pose proof (toCanonicalScale_nonneg dOut a1 ltac:(lia)).
  pose proof Q64_pos.
  apply canonicalIn_mono; try assumption; fold dOut rO; try lia.
  destruct (Z.eq_dec (Spec.toCanonicalScale dOut a2) (Spec.toCanonicalScale dOut rO))
    as [Heq|]; [|lia].
  rewrite Heq, Z.sub_diag, Z.mul_0_r in Hd2. contradiction.
Qed.

End V2_monotone.

Lemma v2_swapExactInput_Return_inv (pool : V2.BrownFiV2PoolState)
    (zeroToOne : bool) (amountIn r : Z) :
  V2.swapExactInput pool zeroToOne amountIn = Return r ->
  0 < amountIn /\ 0 < v2_reserveOut pool zeroToOne.
Proof.
  intros Hret.
  assert (Ha : 0 < amountIn).
  { destruct (Z_le_gt_dec amountIn 0); [|lia]. exfalso. revert Hret.
    unfold V2.swapExactInput. ztest. discriminate. }
  split; [assumption|].
  destruct (Z_le_gt_dec (v2_reserveOut pool zeroToOne) 0); [|lia].
  rewrite v2_swapExactInput_liquidity in Hret by assumption. discriminate.
Qed.

(** The constant-product quotient grows with the effective input. *)
Lemma constant_product_mono (R pI pO e1 e2 : Z) :
  0 <= R -> 0 <= pI -> 0 <= pO -> 0 <= e1 <= e2 ->
  0 < pO * R + e1 * pI ->
  Spec.mulDivFloor (R * e1) pI (pO * R + e1 * pI) <=
  Spec.mulDivFloor (R * e2) pI (pO * R + e2 * pI).
Proof.
  intros HR HpI HpO He Hd. unfold Spec.mulDivFloor.
  assert (He1 : 0 <= e1 * pI) by (apply Z.mul_nonneg_nonneg; lia).
  assert (He12 : e1 * pI <= e2 * pI) by (apply Z.mul_le_mono_nonneg_r; lia).
  assert (HpR : 0 <= pO * R) by (apply Z.mul_nonneg_nonneg; lia).
  apply div_frac_mono; try lia.
  assert (Hdiff : R * e2 * pI * (pO * R + e1 * pI) - R * e1 * pI * (pO * R + e2 * pI)
                  = R * (pO * R) * (e2 * pI - e1 * pI)) by ring.
  assert (0 <= R * (pO * R) * (e2 * pI - e1 * pI))
    by (repeat apply Z.mul_nonneg_nonneg; lia).
  lia.
Qed.

Lemma v2_swapExactInput_constant_product_mono (pool : V2.BrownFiV2PoolState)
    (zeroToOne : bool) (a1 a2 r1 r2 : Z) :
  wf_v2 pool -> V2.kappa pool = 2 * V2.Q64 ->
  a1 <= a2 ->
  V2.swapExactInput pool zeroToOne a1 = Return r1 ->
  V2.swapExactInput pool zeroToOne a2 = Return r2 ->
  r1 <= r2.
Proof.
  intros Hwf Hkappa Hle H1 H2.
  destruct (v2_swapExactInput_Return_inv _ _ _ _ H1) as [Ha1 Hr].
  destruct (v2_swapExactInput_Return_inv _ _ _ _ H2) as [Ha2 _].
  rewrite v2_swapExactInput_eq in H1, H2 by assumption.
  pose proof (v2_skewed_nonneg pool zeroToOne Hwf) as Hsk.
  destruct Hwf as (Hr0 & Hr1 & Hp0 & Hp1 & Hk & Hl & Hf).
  unfold v2_swapExactInput_closed_form in H1, H2. cbv zeta in Hsk.
  destruct (negb (V2.lambda pool =? 0) && _); [discriminate|].
  destruct (Hsk eq_refl) as [HpI HpO]. clear Hsk.
  destruct (Spec.skewPrices _ _ _ _ _) as [pI pO]. cbn [fst snd] in HpI, HpO.
  unfold Spec.canonicalOutDivisor, Spec.canonicalOut in H1, H2.
  rewrite Hkappa, Z.eqb_refl in H1, H2.
  set (dIn := v2_tokenInDecimals pool zeroToOne) in *.
  set (dOut := v2_tokenOutDecimals pool zeroToOne) in *.
  set (R := Spec.toCanonicalScale dOut (v2_reserveOut pool zeroToOne)) in *.
  assert (HR : 0 <= R) by (apply toCanonicalScale_nonneg; lia).
  pose proof (toCanonicalScale_nonneg dIn a1 ltac:(lia)) as Hc1.
  pose proof (toCanonicalScale_mono dIn a1 a2 Hle) as Hc12.
  set (c1 := Spec.toCanonicalScale dIn a1) in *.
  set (c2 := Spec.toCanonicalScale dIn a2) in *.
  assert (He : 0 <= Spec.mulDivFloor c1 (10 ^ 8) (10 ^ 8 + V2.fee pool)
               <= Spec.mulDivFloor c2 (10 ^ 8) (10 ^ 8 + V2.fee pool)).
  { unfold Spec.mulDivFloor. change (10 ^ 8) with 100000000. split.
    - apply Z.div_pos; lia.
    - apply Z.div_le_mono; lia. }
  set (e1 := Spec.mulDivFloor c1 (10 ^ 8) (10 ^ 8 + V2.fee pool)) in *.
  set (e2 := Spec.mulDivFloor c2 (10 ^ 8) (10 ^ 8 + V2.fee pool)) in *.
  destruct (Z.eqb_spec (pO * R + e1 * pI) 0) as [|Hd1]; [discriminate|].
  destruct (Z.eqb_spec (pO * R + e2 * pI) 0) as [|Hd2]; [discriminate|].
  injection H1 as <-. injection H2 as <-.
  assert (0 <= pO * R) by (apply Z.mul_nonneg_nonneg; lia).
  assert (0 <= e1 * pI) by (apply Z.mul_nonneg_nonneg; lia).
  pose proof (constant_product_mono R pI pO e1 e2 HR HpI HpO He ltac:(lia)) as Hout.
  unfold Spec.fromCanonicalScaleWith. destruct (Z.ltb_spec 18 dOut).
  - apply Z.mul_le_mono_nonneg_r; [|assumption].
    pose proof (pow10_pos (dOut - 18) ltac:(lia)). lia.
  - apply Z.quot_le_mono; [|assumption]. apply pow10_pos. lia.
Qed.

(** C9 (amended): within the valid domain (non-negative parameters, both
    calls returning), [swapExactOutput] is weakly increasing in its amount on
    V1 and on V2; V1 [swapExactInput], the identity, is strictly increasing;
    V2 [swapExactInput] is weakly increasing in the constant-product case
    [kappa = 2*Q64]. *)
Theorem quotes_monotone :
  (forall (pool : V1.BrownFiPoolState) (zeroToOne : bool) (a1 a2 r1 r2 : Z),
     V1.fee pool < 10000 -> 0 <= V1.kappa pool -> 0 <= V1.oraclePrice pool ->
     a1 < a2 ->
     V1.swapExactOutput pool zeroToOne a1 = Return r1 ->
     V1.swapExactOutput pool zeroToOne a2 = Return r2 ->
     r1 <= r2)
  /\
  (forall (pool : V2.BrownFiV2PoolState) (zeroToOne : bool) (a1 a2 r1 r2 : Z),
     wf_v2 pool ->
     a1 < a2 ->
     V2.swapExactOutput pool zeroToOne a1 = Return r1 ->
     V2.swapExactOutput pool zeroToOne a2 = Return r2 ->
     r1 <= r2)
  /\
  (forall (pool : V1.BrownFiPoolState) (zeroToOne : bool) (a1 a2 r1 r2 : Z),
     a1 < a2 ->
     V1.swapExactInput pool zeroToOne a1 = Return r1 ->
     V1.swapExactInput pool zeroToOne a2 = Return r2 ->
     r1 < r2)
  /\
  (forall (pool : V2.BrownFiV2PoolState) (zeroToOne : bool) (a1 a2 r1 r2 : Z),
     wf_v2 pool -> V2.kappa pool = 2 * V2.Q64 ->
     a1 < a2 ->
     V2.swapExactInput pool zeroToOne a1 = Return r1 ->
     V2.swapExactInput pool zeroToOne a2 = Return r2 ->
     r1 <= r2).
Proof.
  repeat split.
  - intros pool z a1 a2 r1 r2 Hfee Hk HP Hlt H1 H2.
    apply (v1_swapExactOutput_mono pool z Hfee Hk HP a1 a2 r1 r2); (lia || assumption).
  - intros pool z a1 a2 r1 r2 Hwf Hlt H1 H2.
    apply (v2_swapExactOutput_mono pool z Hwf a1 a2 r1 r2); (lia || assumption).
  - intros pool z a1 a2 r1 r2 Hlt H1 H2.
    unfold V1.swapExactInput in H1, H2. injection H1 as <-. injection H2 as <-.
    assumption.
  - intros pool z a1 a2 r1 r2 Hwf Hk Hlt H1 H2.
    apply (v2_swapExactInput_constant_product_mono pool z a1 a2 r1 r2);
      (lia || assumption).
Qed.

Lemma quotes_monotone_witness :
  (* V1 swapExactOutput, V2 swapExactOutput, V1 swapExactInput and V2
     swapExactInput of 10e18 and of 20e18 on the reference pools *)
  5277044854881266492 <= 11142061281337047355 /\
  5276315789473684210 <= 11138888888888888887 /\
  10 * ether < 20 * ether /\
  18140589569160997731 <= 33264033264033264032.
Proof.
  destruct quotes_monotone as (Hv1out & Hv2out & Hv1in & Hv2in).
  split; [|split; [|split]].
  - apply (Hv1out v1_reference_pool true (10 * ether) (20 * ether));
      vm_compute; solve [reflexivity | discriminate].
  - apply (Hv2out v2_reference_pool true (10 * ether) (20 * ether));
      try (repeat split; vm_compute; discriminate);
      vm_compute; reflexivity.
  - apply (Hv1in v1_reference_pool true (10 * ether) (20 * ether));
      vm_compute; reflexivity.
  - apply (Hv2in v2_reference_pool true (10 * ether) (20 * ether));
      try (repeat split; vm_compute; discriminate);
      vm_compute; reflexivity.
Defined.

(** C9 as stated fails on both counts.  On the V1 reference pool
    [swapExactOutput] quotes [2] for an output of [1] and of [2]: it is not
    strictly increasing.  On the even pool V2 [swapExactInput] quotes [18]
    for an input of [9] and [11] for an input of [10]: outside the
    constant-product case it is not even weakly increasing. *)
Lemma quotes_not_strictly_monotone :
  (1 < 2 /\
   V1.swapExactOutput v1_reference_pool true 1 = Return 2 /\
   V1.swapExactOutput v1_reference_pool true 2 = Return 2 /\
   ~ 2 < 2)
  /\
  (9 < 10 /\
   V2.swapExactInput v2_even_pool true 9 = Return 18 /\
   V2.swapExactInput v2_even_pool true 10 = Return 11 /\
   ~ 18 <= 11).
Proof.
  repeat split; try (vm_compute; reflexivity); lia.
Qed.

(** ** Reference vectors *)

(** C1: on the V1 reference pool, [swapExactOutput] of [10e18] is
    [5277044854881266492] (zeroToOne) and [22284122562674094710] (oneToZero);
    on the V2 reference pool, [swapExactInput] of [10e18] is
    [18140589569160997731] and [4750593824228028503], [swapExactOutput] of
    [10e18] is [5276315789473684210] and [22277777777777777776], and
    [spotPriceWithoutFee] is the double [2.0] and [0.5]. *)
Theorem reference_vectors :
  V1.swapExactOutput v1_reference_pool true (10 * ether) = Return 5277044854881266492 /\
  V1.swapExactOutput v1_reference_pool false (10 * ether) = Return 22284122562674094710 /\
  V2.swapExactInput v2_reference_pool true (10 * ether) = Return 18140589569160997731 /\
  V2.swapExactInput v2_reference_pool false (10 * ether) = Return 4750593824228028503 /\
  V2.swapExactOutput v2_reference_pool true (10 * ether) = Return 5276315789473684210 /\
  V2.swapExactOutput v2_reference_pool false (10 * ether) = Return 22277777777777777776 /\
  V2.spotPriceWithoutFee v2_reference_pool true = Return double_2_0 /\
  V2.spotPriceWithoutFee v2_reference_pool false = Return double_0_5.
Proof. repeat split; vm_compute; reflexivity. Qed.


(** * Further properties of the pool math *)

(** ** Helpers of V1 and V2 *)

Lemma Return_inj {A : Type} (a b : A) : Return a = Return b -> a = b.
Proof. intros H. now injection H. Qed.

(** For a positive denominator [mulDivRoundingUp] returns the least [q] with
    [a*b <= denominator*q], whatever the sign of the product; a zero
    denominator raises the [RangeError] of a division by zero. *)
Theorem mulDivRoundingUp_least (a b denominator : Z) :
  (0 < denominator ->
   exists q, V1.mulDivRoundingUp a b denominator = Return q /\
             denominator * (q - 1) < a * b <= denominator * q)
  /\
  (denominator = 0 -> V1.mulDivRoundingUp a b denominator = Throw RangeError).
Proof.
  split.
  - intros Hd. exists (Spec.mulDivCeil a b denominator).
    split; [now apply mulDivRoundingUp_ceil | now apply mulDivCeil_spec].
  - intros ->. reflexivity.
Qed.

Lemma mulDivRoundingUp_least_witness :
  exists q, V1.mulDivRoundingUp (-7) 1 2 = Return q /\ 2 * (q - 1) < -7 * 1 <= 2 * q.
Proof. apply (proj1 (mulDivRoundingUp_least (-7) 1 2)). lia. Defined.

(** With a negative denominator and a product it does not divide,
    [mulDivRoundingUp] misses the ceiling by one: one above it for a positive
    product, one below it for a negative product. *)
Theorem mulDivRoundingUp_negative_denominator (a b denominator : Z) :
  denominator < 0 -> Z.rem (a * b) denominator <> 0 ->
  V1.mulDivRoundingUp a b denominator =
  Return (if 0 <? a * b
          then Spec.mulDivCeil a b denominator + 1
          else Spec.mulDivCeil a b denominator - 1).
Proof.
  intros Hd Hrem. unfold V1.mulDivRoundingUp, Spec.mulDivCeil.
  rewrite bigdiv_nonzero, bigrem_nonzero by lia. cbn [bind].
  set (p := a * b) in *.
  pose proof (Z.quot_rem' p denominator) as Hqr.
  destruct (Z.ltb_spec 0 p) as [Hpos|Hneg].
  - pose proof (Z.rem_bound_neg_pos p denominator Hd ltac:(lia)) as Hr.
    replace (0 <? Z.rem p denominator) with true
      by (symmetry; apply Z.ltb_lt; lia).
    f_equal.
    rewrite <- (Z.div_unique (- p) denominator (- Z.quot p denominator)
                  (- Z.rem p denominator)); lia.
  - assert (Hp : p < 0).
    { destruct (Z.eq_dec p 0) as [Hz|]; [|lia].
      rewrite Hz, Z.rem_0_l in Hrem by lia. contradiction. }
    pose proof (Z.rem_bound_neg_neg p denominator Hd ltac:(lia)) as Hr.
    replace (0 <? Z.rem p denominator) with false
      by (symmetry; apply Z.ltb_ge; lia).
    f_equal.
    rewrite <- (Z.div_unique (- p) denominator (- Z.quot p denominator - 1)
                  (denominator - Z.rem p denominator)); lia.
Qed.

Lemma mulDivRoundingUp_negative_denominator_witness :
  V1.mulDivRoundingUp 1 10000 (-20000) =
  Return (if 0 <? 1 * 10000
          then Spec.mulDivCeil 1 10000 (-20000) + 1
          else Spec.mulDivCeil 1 10000 (-20000) - 1).
Proof.
  apply (mulDivRoundingUp_negative_denominator 1 10000 (-20000));
    [lia | vm_compute; discriminate].
Defined.

Lemma sqrt_value (value : Z) :
  V2.sqrt value = Return (if value <? 0 then value else Z.sqrt value).
Proof.
  destruct (Z.ltb_spec value 0).
  - now apply sqrt_neg.
  - now apply sqrt_eq_Zsqrt.
Qed.

(** [sqrt] returns on every integer: it never raises and its loop always
    ends; on a non-negative argument the result is the floor of the square
    root, and a negative argument comes back unchanged. *)
Theorem sqrt_total (value : Z) :
  V2.sqrt value = Return (if value <? 0 then value else Z.sqrt value).
Proof. apply sqrt_value. Qed.

(** Rescaling to the canonical 18 decimals and back gives the amount back
    when the token has at most 18 decimals; back to front, it does when the
    token has at least 18 decimals.  Both hold for amounts of any sign. *)
Theorem decimals_round_trip (tokenDecimals amount : Z) :
  (tokenDecimals <= 18 ->
   bind (V2.parseRawToDefaultDecimals tokenDecimals amount)
        (V2.parseDefaultDecimalsToRaw tokenDecimals) = Return amount)
  /\
  (18 <= tokenDecimals ->
   bind (V2.parseDefaultDecimalsToRaw tokenDecimals amount)
        (V2.parseRawToDefaultDecimals tokenDecimals) = Return amount).
Proof.
  split; intros Hd.
  - rewrite parseRawToDefaultDecimals_eq. cbn [bind].
    rewrite parseDefaultDecimalsToRaw_eq.
    replace (18 <? tokenDecimals) with false by (symmetry; apply Z.ltb_ge; lia).
    pose proof (pow10_pos (18 - tokenDecimals) ltac:(lia)).
    now rewrite Z.quot_mul by lia.
  - rewrite parseDefaultDecimalsToRaw_eq. cbn [bind].
    rewrite parseRawToDefaultDecimals_eq.
    destruct (Z.ltb_spec 18 tokenDecimals).
    + pose proof (pow10_pos (tokenDecimals - 18) ltac:(lia)).
      now rewrite Z.quot_mul by lia.
    + replace (18 - tokenDecimals) with 0 by lia.
      change (10 ^ 0) with 1. rewrite Z.mul_1_r, Z.quot_1_r. reflexivity.
Qed.

Lemma decimals_round_trip_witness :
  bind (V2.parseRawToDefaultDecimals 6 (-1234567))
       (V2.parseDefaultDecimalsToRaw 6) = Return (-1234567)
  /\
  bind (V2.parseDefaultDecimalsToRaw 24 1234567)
       (V2.parseRawToDefaultDecimals 24) = Return 1234567.
Proof.
  split.
  - apply (proj1 (decimals_round_trip 6 (-1234567))). lia.
  - apply (proj2 (decimals_round_trip 24 1234567)). lia.
Defined.

(** With more than 18 decimals the round trip loses less than one canonical
    unit: it returns a multiple of [10^(tokenDecimals-18)] no farther from
    zero than the amount and less than [10^(tokenDecimals-18)] away. *)
Theorem decimals_round_trip_lossy (tokenDecimals amount : Z) :
  18 < tokenDecimals ->
  exists back,
    bind (V2.parseRawToDefaultDecimals tokenDecimals amount)
         (V2.parseDefaultDecimalsToRaw tokenDecimals) = Return back /\
    Z.abs back <= Z.abs amount /\
    Z.abs (amount - back) < 10 ^ (tokenDecimals - 18) /\
    Z.rem back (10 ^ (tokenDecimals - 18)) = 0.
Proof.
  intros Hd. pose proof (pow10_pos (tokenDecimals - 18) ltac:(lia)) as Hm.
  set (m := 10 ^ (tokenDecimals - 18)) in *.
  exists (Z.quot amount m * m).
  rewrite parseRawToDefaultDecimals_eq. cbn [bind].
  rewrite parseDefaultDecimalsToRaw_eq.
  replace (18 <? tokenDecimals) with true by (symmetry; apply Z.ltb_lt; lia).
  fold m. split; [reflexivity|].
  pose proof (Z.quot_rem' amount m) as Hqr.
  split; [|split].
  - destruct (Z_le_gt_dec 0 amount).
    + pose proof (Z.rem_bound_pos amount m ltac:(lia) Hm).
      pose proof (Z.quot_pos amount m ltac:(lia) Hm). nia.
    + pose proof (Z.rem_bound_pos_neg amount m Hm ltac:(lia)).
      pose proof (Z.quot_le_mono amount 0 m Hm ltac:(lia)) as Hq.
      rewrite Z.quot_0_l in Hq by lia. nia.
  - destruct (Z_le_gt_dec 0 amount).
    + pose proof (Z.rem_bound_pos amount m ltac:(lia) Hm). lia.
    + pose proof (Z.rem_bound_pos_neg amount m Hm ltac:(lia)). lia.
  - apply Z.rem_mul. lia.
Qed.

Lemma decimals_round_trip_lossy_witness :
  exists back,
    bind (V2.parseRawToDefaultDecimals 20 1234567)
         (V2.parseDefaultDecimalsToRaw 20) = Return back /\
    Z.abs back <= Z.abs 1234567 /\
    Z.abs (1234567 - back) < 10 ^ (20 - 18) /\
    Z.rem back (10 ^ (20 - 18)) = 0.
Proof. apply (decimals_round_trip_lossy 20 1234567). lia. Defined.

(** On non-negative prices and reserves with [lambda] at most [Q64], the
    adjusted prices returned by [getSkewnessPrice] are non-negative; the side
    with the larger notional value gets a price no higher than its own, the
    other side a price between its own and twice its own. *)
Theorem getSkewnessPrice_direction (priceA priceB reserveA reserveB lambda
    adjustedA adjustedB : Z) :
  0 <= priceA -> 0 <= priceB -> 0 <= reserveA -> 0 <= reserveB ->
  0 <= lambda <= V2.Q64 ->
  V2.getSkewnessPrice priceA priceB reserveA reserveB lambda
    = Return (adjustedA, adjustedB) ->
  (reserveB * priceB <= reserveA * priceA ->
   0 <= adjustedA <= priceA /\ priceB <= adjustedB <= 2 * priceB)
  /\
  (reserveA * priceA < reserveB * priceB ->
   priceA <= adjustedA <= 2 * priceA /\ 0 <= adjustedB <= priceB).
Proof.
  intros HpA HpB HrA HrB Hl Hret. pose proof Q64_pos as HQ.
  rewrite getSkewnessPrice_spec in Hret by assumption.
  unfold Spec.skewPrices, Spec.mulDivFloor in Hret.
  destruct (Z.eqb_spec lambda 0) as [Hl0|Hl0]; cbn [negb andb] in Hret.
  - injection Hret as <- <-. lia.
  - destruct (Z.eqb_spec (reserveA * priceA + reserveB * priceB) 0) as [|Hnz];
      [discriminate|].
    assert (HvA : 0 <= reserveA * priceA) by nia.
    assert (HvB : 0 <= reserveB * priceB) by nia.
    pose proof (skew_magnitude_bounds _ _ lambda HvA HvB (proj1 Hl) Hnz) as Hs.
    set (s := Z.abs (reserveA * priceA - reserveB * priceB) * lambda
              / (reserveA * priceA + reserveB * priceB)) in *.
    assert (Hdown : forall price, 0 <= price ->
              0 <= price * (V2.Q64 - s) / V2.Q64 <= price).
    { intros price Hp. split.
      - apply Z.div_pos; nia.
      - apply Z.div_le_upper_bound; nia. }
    assert (Hup : forall price, 0 <= price ->
              price <= price * (V2.Q64 + s) / V2.Q64 <= 2 * price).
    { intros price Hp. split.
      - apply Z.div_le_lower_bound; nia.
      - apply Z.div_le_upper_bound; nia. }
    clearbody s. clear Hs.
    destruct (Z.leb_spec (reserveB * priceB) (reserveA * priceA)) as [Hle|Hlt];
      apply Return_inj, pair_equal_spec in Hret; destruct Hret as [<- <-];
      split; intros Hcmp.
    + split; [apply Hdown | apply Hup]; assumption.
    + exfalso. apply (Z.lt_irrefl (reserveA * priceA)).
      eapply Z.lt_le_trans; eassumption.
    + exfalso. apply (Z.lt_irrefl (reserveA * priceA)).
      eapply Z.lt_le_trans; eassumption.
    + split; [apply Hup | apply Hdown]; assumption.
Qed.

Lemma getSkewnessPrice_direction_witness :
  (200 * ether * V2.Q64 <= 200 * ether * (2 * V2.Q64) ->
   0 <= 27670116110564327424 <= 2 * V2.Q64 /\
   V2.Q64 <= 23058430092136939520 <= 2 * V2.Q64)
  /\
  (200 * ether * (2 * V2.Q64) < 200 * ether * V2.Q64 ->
   2 * V2.Q64 <= 27670116110564327424 <= 2 * (2 * V2.Q64) /\
   0 <= 23058430092136939520 <= V2.Q64).
Proof.
  apply (getSkewnessPrice_direction (2 * V2.Q64) V2.Q64 (200 * ether) (200 * ether)
           (3 * V2.Q64 / 4));
    try (vm_compute; reflexivity);
    try (vm_compute; discriminate);
    split; vm_compute; discriminate.
Defined.

(** A non-positive amount is rejected first: V1 and V2 [swapExactOutput]
    raise their INSUFFICIENT_OUTPUT_AMOUNT and V2 [swapExactInput] raises
    INSUFFICIENT_INPUT_AMOUNT whatever the pool, an empty one included. *)
Theorem amount_guard_first (amount : Z) :
  amount <= 0 ->
  (forall (pool : V1.BrownFiPoolState) (zeroToOne : bool),
     V1.swapExactOutput pool zeroToOne amount = Throw V1.INSUFFICIENT_OUTPUT_AMOUNT)
  /\
  (forall (pool : V2.BrownFiV2PoolState) (zeroToOne : bool),
     V2.swapExactInput pool zeroToOne amount = Throw V2.INSUFFICIENT_INPUT_AMOUNT /\
     V2.swapExactOutput pool zeroToOne amount = Throw V2.INSUFFICIENT_OUTPUT_AMOUNT).
Proof.
  intros Ha. split.
  - intros pool z. unfold V1.swapExactOutput. destruct z; ztest; reflexivity.
  - intros pool z. split.
    + unfold V2.swapExactInput. ztest. reflexivity.
    + unfold V2.swapExactOutput. ztest. reflexivity.
Qed.

Lemma amount_guard_first_witness :
  V1.swapExactOutput (v1_pool 0 0 0 0 0) true 0 = Throw V1.INSUFFICIENT_OUTPUT_AMOUNT.
Proof. apply (proj1 (amount_guard_first 0 ltac:(lia))). Defined.

(** ** Quotes of V2 *)



Lemma getSkewnessPrice_unpriced (reserveA reserveB lambda : Z) :
  V2.getSkewnessPrice 0 0 reserveA reserveB lambda =
  if lambda =? 0 then Return (0, 0) else Throw RangeError.
Proof.
  unfold V2.getSkewnessPrice. destruct (lambda =? 0); [reflexivity|].
  rewrite !Z.mul_0_r. reflexivity.
Qed.

Lemma v2_curve_unpriced (kappa R e dOut : Z) :
  bind
    (if kappa =? 2 * V2.Q64 then
       V2.mulDiv (R * e) 0 (0 * R + e * 0)
     else
       bind (V2.computeLeftSqrt e 0 0 R) (fun leftSqrt =>
       bind (V2.computeRightSqrt e 0 0 R kappa) (fun rightSqrt =>
       bind (V2.mulDiv 0 (2 * V2.Q64 - kappa) V2.Q64) (fun denominator =>
       bind (V2.sqrt (leftSqrt + rightSqrt)) (fun sqrtTerm =>
       bigdiv (V2.computeLeftNumerator e 0 0 R - V2.Q64 * sqrtTerm) denominator)))))
    (fun amountOut => V2.parseDefaultDecimalsToRaw dOut amountOut)
  = Throw RangeError.
Proof.
  pose proof Q64_pos as HQ.
  destruct (kappa =? 2 * V2.Q64).
  - unfold V2.mulDiv. replace (0 * R + e * 0) with 0 by ring. reflexivity.
  - unfold V2.computeLeftSqrt, V2.computeRightSqrt, V2.mulDiv.
    rewrite !bigdiv_nonzero by nia. cbn [bind].
    destruct (_ >? _); cbn [bind]; rewrite Z.mul_0_l, Z.quot_0_l by lia;
      cbn [bind]; rewrite sqrt_value; reflexivity.
Qed.

Lemma v2_unpriced_range_error (pool : V2.BrownFiV2PoolState)
    (zeroToOne : bool) (amount : Z) :
  V2.price0 pool = 0 -> V2.price1 pool = 0 ->
  0 < amount -> 0 < v2_reserveOut pool zeroToOne ->
  V2.swapExactInput pool zeroToOne amount = Throw RangeError /\
  (amount * 10 < v2_reserveOut pool zeroToOne * 8 ->
   V2.swapExactOutput pool zeroToOne amount = Throw RangeError).
Proof.
  intros H0 H1 Ha Hr. unfold v2_reserveOut in *. split; [|intros Hc].
  - unfold V2.swapExactInput.
    destruct zeroToOne; ztest; cbv beta iota zeta;
      rewrite !parseRawToDefaultDecimals_eq; cbn [bind];
      rewrite H0, H1, getSkewnessPrice_unpriced;
      (destruct (V2.lambda pool =? 0); [|reflexivity]); cbn [bind];
      unfold V2.mulDiv at 1; unfold bigdiv at 1;
      (destruct (_ =? 0); [reflexivity|]); cbn [bind];
      apply v2_curve_unpriced.
  - unfold V2.swapExactOutput.
    destruct zeroToOne; ztest; cbv beta iota zeta;
      rewrite !parseRawToDefaultDecimals_eq; cbn [bind];
      rewrite H0, H1, getSkewnessPrice_unpriced;
      (destruct (V2.lambda pool =? 0); [|reflexivity]); cbn [bind];
      unfold V2.mulDiv at 1; unfold bigdiv at 1;
      (destruct (_ =? 0); [reflexivity|]); cbn [bind];
      unfold V2.mulDiv at 1; reflexivity.
Qed.

(** A pool whose two prices are zero cannot be quoted: past the guards,
    [swapExactInput] and [swapExactOutput] raise the [RangeError] of a
    division by zero, whatever the reserves, curvature, skew and fee. *)
Theorem v2_unpriced_pool_never_quotes (pool : V2.BrownFiV2PoolState)
    (zeroToOne : bool) (amount : Z) :
  V2.price0 pool = 0 -> V2.price1 pool = 0 ->
  0 < amount -> 0 < v2_reserveOut pool zeroToOne ->
  V2.swapExactInput pool zeroToOne amount = Throw RangeError /\
  (amount * 10 < v2_reserveOut pool zeroToOne * 8 ->
   V2.swapExactOutput pool zeroToOne amount = Throw RangeError).
Proof. apply v2_unpriced_range_error. Qed.

Lemma v2_unpriced_pool_never_quotes_witness :
  V2.swapExactInput (v2_pool (100 * ether) (200 * ether) V2.Q64 0 250000 18 18 0 0)
    true (10 * ether) = Throw RangeError /\
  (10 * ether * 10 <
     v2_reserveOut (v2_pool (100 * ether) (200 * ether) V2.Q64 0 250000 18 18 0 0) true * 8 ->
   V2.swapExactOutput (v2_pool (100 * ether) (200 * ether) V2.Q64 0 250000 18 18 0 0)
     true (10 * ether) = Throw RangeError).
Proof.
  apply (v2_unpriced_pool_never_quotes
           (v2_pool (100 * ether) (200 * ether) V2.Q64 0 250000 18 18 0 0)
           true (10 * ether)); vm_compute; reflexivity.
Defined.

(** On a pool whose two prices are zero, [spotPriceWithoutFee] does not
    raise when [lambda] is zero: it returns the double NaN of [0/0]; with
    another [lambda] it raises the [RangeError] of the skew division. *)
Theorem v2_spotPrice_unpriced (pool : V2.BrownFiV2PoolState) (zeroToOne : bool) :
  V2.price0 pool = 0 -> V2.price1 pool = 0 ->
  V2.spotPriceWithoutFee pool zeroToOne =
  if V2.lambda pool =? 0 then Return double_nan else Throw RangeError.
Proof.
  intros H0 H1. unfold V2.spotPriceWithoutFee.
  rewrite !parseRawToDefaultDecimals_eq. cbn [bind].
  rewrite H0, H1, getSkewnessPrice_unpriced.
  destruct (V2.lambda pool =? 0); [|reflexivity].
  destruct zeroToOne; reflexivity.
Qed.

Lemma v2_spotPrice_unpriced_witness :
  V2.spotPriceWithoutFee
    (v2_pool (100 * ether) (200 * ether) V2.Q64 0 250000 18 18 0 0) true =
  Return double_nan.
Proof.
  apply (v2_spotPrice_unpriced
           (v2_pool (100 * ether) (200 * ether) V2.Q64 0 250000 18 18 0 0) true);
    reflexivity.
Defined.

(** The skew has no effect on a pool whose notional values, as the code
    forms them, are equal and not zero: the canonical reserve of token0 times
    the price of the input side against the canonical reserve of token1 times
    the price of the output side.  Both quotes are then those of the same
    pool with [lambda = 0]. *)
Theorem v2_skew_neutral_when_balanced (pool : V2.BrownFiV2PoolState)
    (zeroToOne : bool) (amount : Z) :
  0 <= V2.reserve0 pool -> 0 <= V2.reserve1 pool ->
  Spec.toCanonicalScale (V2.token0Decimals pool) (V2.reserve0 pool)
    * v2_priceIn pool zeroToOne
  = Spec.toCanonicalScale (V2.token1Decimals pool) (V2.reserve1 pool)
    * v2_priceOut pool zeroToOne ->
  Spec.toCanonicalScale (V2.token0Decimals pool) (V2.reserve0 pool)
    * v2_priceIn pool zeroToOne <> 0 ->
  V2.swapExactInput pool zeroToOne amount =
    V2.swapExactInput (v2_set_lambda pool 0) zeroToOne amount /\
  V2.swapExactOutput pool zeroToOne amount =
    V2.swapExactOutput (v2_set_lambda pool 0) zeroToOne amount.
Proof.
  intros Hr0 Hr1 Hbal Hnz. unfold v2_priceIn, v2_priceOut in *.
  split.
  - unfold V2.swapExactInput, v2_set_lambda.
    cbn [V2.reserve0 V2.reserve1 V2.lambda V2.kappa V2.fee V2.token0Decimals
         V2.token1Decimals V2.price0 V2.price1].
    destruct (amount <=? 0); [reflexivity|].
    destruct zeroToOne; cbv beta iota zeta;
      (destruct (_ <=? 0); [reflexivity|]);
      rewrite (parseRawToDefaultDecimals_eq _ amount); cbn [bind];
      rewrite !parseRawToDefaultDecimals_nonneg by assumption; cbn [bind];
      rewrite getSkewnessPrice_balanced, getSkewnessPrice_lambda_zero by assumption;
      reflexivity.
  - unfold V2.swapExactOutput, v2_set_lambda.
    cbn [V2.reserve0 V2.reserve1 V2.lambda V2.kappa V2.fee V2.token0Decimals
         V2.token1Decimals V2.price0 V2.price1].
    destruct (amount <=? 0); [reflexivity|].
    destruct zeroToOne; cbv beta iota zeta;
      (destruct (_ <=? 0); [reflexivity|]);
      (destruct (_ >=? _); [reflexivity|]);
      rewrite (parseRawToDefaultDecimals_eq _ amount); cbn [bind];
      rewrite !parseRawToDefaultDecimals_nonneg by assumption; cbn [bind];
      rewrite getSkewnessPrice_balanced, getSkewnessPrice_lambda_zero by assumption;
      reflexivity.
Qed.

Lemma v2_skew_neutral_when_balanced_witness :
  V2.swapExactInput
    (v2_pool (100 * ether) (200 * ether) V2.Q64 (V2.Q64 / 2) 250000 18 18
       (2 * V2.Q64) V2.Q64) true (10 * ether) =
  V2.swapExactInput
    (v2_set_lambda
       (v2_pool (100 * ether) (200 * ether) V2.Q64 (V2.Q64 / 2) 250000 18 18
          (2 * V2.Q64) V2.Q64) 0) true (10 * ether).
Proof.
  apply (proj1 (v2_skew_neutral_when_balanced
                  (v2_pool (100 * ether) (200 * ether) V2.Q64 (V2.Q64 / 2) 250000 18 18
                     (2 * V2.Q64) V2.Q64) true (10 * ether)
                  ltac:(vm_compute; discriminate) ltac:(vm_compute; discriminate)
                  ltac:(vm_compute; reflexivity) ltac:(vm_compute; discriminate))).
Defined.

(** ** The constant-product case of V2 *)

Lemma fromCanonicalScale_nonneg (d a : Z) : 0 <= a -> 0 <= Spec.fromCanonicalScale d a.
Proof.
  intros Ha. unfold Spec.fromCanonicalScale. destruct (Z.ltb_spec 18 d).
  - pose proof (pow10_pos (d - 18) ltac:(lia)). nia.
  - apply Z.div_pos; [lia | apply pow10_pos; lia].
Qed.

Lemma fromCanonicalScaleWith_quot (d a : Z) :
  0 <= a -> Spec.fromCanonicalScaleWith Z.quot d a = Spec.fromCanonicalScale d a.
Proof.
  intros Ha. unfold Spec.fromCanonicalScaleWith, Spec.fromCanonicalScale.
  destruct (Z.ltb_spec 18 d); [reflexivity|].
  apply Z.quot_div_nonneg; [lia | apply pow10_pos; lia].
Qed.

Lemma from_to_canonical_le (d a : Z) :
  0 <= a -> Spec.fromCanonicalScale d (Spec.toCanonicalScale d a) <= a.
Proof.
  intros Ha. unfold Spec.fromCanonicalScale, Spec.toCanonicalScale.
  destruct (Z.ltb_spec 18 d).
  - pose proof (pow10_pos (d - 18) ltac:(lia)) as Hm.
    pose proof (Z.mul_div_le a _ Hm). lia.
  - pose proof (pow10_pos (18 - d) ltac:(lia)) as Hm.
    rewrite Z.div_mul by lia. lia.
Qed.

Lemma to_from_canonical_le (d a : Z) :
  0 <= a -> Spec.toCanonicalScale d (Spec.fromCanonicalScale d a) <= a.
Proof.
  intros Ha. unfold Spec.fromCanonicalScale, Spec.toCanonicalScale.
  destruct (Z.ltb_spec 18 d).
  - pose proof (pow10_pos (d - 18) ltac:(lia)) as Hm.
    rewrite Z.div_mul by lia. lia.
  - pose proof (pow10_pos (18 - d) ltac:(lia)) as Hm.
    pose proof (Z.mul_div_le a _ Hm). lia.
Qed.

(** What a returned constant-product quote of [swapExactInput] is made of. *)
Lemma v2_constant_product_input_inv (pool : V2.BrownFiV2PoolState)
    (zeroToOne : bool) (amountIn out : Z) :
  wf_v2 pool -> V2.kappa pool = 2 * V2.Q64 ->
  V2.swapExactInput pool zeroToOne amountIn = Return out ->
  exists pI pO : Z,
    Spec.skewPrices (v2_priceIn pool zeroToOne) (v2_priceOut pool zeroToOne)
      (Spec.toCanonicalScale (V2.token0Decimals pool) (V2.reserve0 pool))
      (Spec.toCanonicalScale (V2.token1Decimals pool) (V2.reserve1 pool))
      (V2.lambda pool) = (pI, pO) /\
    0 <= pI /\ 0 <= pO /\ 0 < amountIn /\ 0 < v2_reserveOut pool zeroToOne /\
    let R := Spec.toCanonicalScale (v2_tokenOutDecimals pool zeroToOne)
               (v2_reserveOut pool zeroToOne) in
    let e := Spec.mulDivFloor
               (Spec.toCanonicalScale (v2_tokenInDecimals pool zeroToOne) amountIn)
               (10 ^ 8) (10 ^ 8 + V2.fee pool) in
    0 < pO * R + e * pI /\
    out = Spec.fromCanonicalScale (v2_tokenOutDecimals pool zeroToOne)
            (Spec.mulDivFloor (R * e) pI (pO * R + e * pI)).
Proof.
  intros Hwf Hkappa Hret.
  destruct (v2_swapExactInput_Return_inv _ _ _ _ Hret) as [Ha Hr].
  rewrite v2_swapExactInput_eq in Hret by assumption.
  pose proof (v2_skewed_nonneg pool zeroToOne Hwf) as Hsk.
  destruct Hwf as (Hr0 & Hr1 & Hp0 & Hp1 & Hk & Hl & Hf).
  unfold v2_swapExactInput_closed_form in Hret.
  destruct (negb (V2.lambda pool =? 0) && _); [discriminate|].
  destruct (Hsk eq_refl) as [HpI HpO]. clear Hsk.
  destruct (Spec.skewPrices _ _ _ _ _) as [pI pO]. cbn [fst snd] in HpI, HpO.
  exists pI, pO. split; [reflexivity|]. repeat (split; [assumption|]).
  unfold Spec.canonicalOutDivisor, Spec.canonicalOut in Hret.
  rewrite Hkappa, Z.eqb_refl in Hret. cbv zeta.
  set (R := Spec.toCanonicalScale _ (v2_reserveOut pool zeroToOne)) in *.
  set (e := Spec.mulDivFloor _ (10 ^ 8) _) in *.
  assert (HR : 0 <= R) by (apply toCanonicalScale_nonneg; lia).
  assert (He : 0 <= e).
  { subst e. unfold Spec.mulDivFloor. change (10 ^ 8) with 100000000.
    apply Z.div_pos; [|lia].
    pose proof (toCanonicalScale_nonneg (v2_tokenInDecimals pool zeroToOne) amountIn
                  ltac:(lia)). lia. }
  assert (HpR : 0 <= pO * R) by (apply Z.mul_nonneg_nonneg; lia).
  assert (HeI : 0 <= e * pI) by (apply Z.mul_nonneg_nonneg; lia).
  destruct (Z.eqb_spec (pO * R + e * pI) 0) as [|Hd]; [discriminate|].
  apply Return_inj in Hret. subst out. split; [lia|].
  apply fromCanonicalScaleWith_quot. unfold Spec.mulDivFloor.
  apply Z.div_pos; [|lia]. repeat apply Z.mul_nonneg_nonneg; lia.
Qed.

(** In the constant-product case [kappa = 2*Q64], on a pool with
    non-negative fields, a returned [swapExactInput] quote is never negative
    and never more than the output reserve. *)
Theorem v2_constant_product_output_bounds (pool : V2.BrownFiV2PoolState)
    (zeroToOne : bool) (amountIn out : Z) :
  wf_v2 pool -> V2.kappa pool = 2 * V2.Q64 ->
  V2.swapExactInput pool zeroToOne amountIn = Return out ->
  0 <= out <= v2_reserveOut pool zeroToOne.
Proof.
  intros Hwf Hkappa Hret.
  destruct (v2_constant_product_input_inv _ _ _ _ Hwf Hkappa Hret)
    as (pI & pO & _ & HpI & HpO & Ha & Hr & Hd & ->).
  cbv zeta in Hd.
  set (dOut := v2_tokenOutDecimals pool zeroToOne) in *.
  set (R := Spec.toCanonicalScale dOut (v2_reserveOut pool zeroToOne)) in *.
  set (e := Spec.mulDivFloor _ (10 ^ 8) _) in *.
  assert (HR : 0 <= R) by (apply toCanonicalScale_nonneg; lia).
  assert (HpR : 0 <= pO * R) by (apply Z.mul_nonneg_nonneg; lia).
  assert (HN : 0 <= R * e * pI).
  { destruct (Z_le_gt_dec 0 (e * pI)) as [|Hneg].
    - replace (R * e * pI) with (R * (e * pI)) by ring.
      apply Z.mul_nonneg_nonneg; lia.
    - destruct (Z.eq_dec R 0) as [->|]; [lia|].
      exfalso.
      assert (0 <= e).
      { subst e. unfold Spec.mulDivFloor. change (10 ^ 8) with 100000000.
        destruct Hwf as (_ & _ & _ & _ & _ & _ & Hf).
        apply Z.div_pos; [|lia].
        pose proof (toCanonicalScale_nonneg (v2_tokenInDecimals pool zeroToOne)
                      amountIn ltac:(lia)). lia. }
      assert (0 <= e * pI) by (apply Z.mul_nonneg_nonneg; lia). lia. }
  assert (Hq : 0 <= Spec.mulDivFloor (R * e) pI (pO * R + e * pI) <= R).
  { unfold Spec.mulDivFloor. split.
    - apply Z.div_pos; lia.
    - apply Z.div_le_upper_bound; [lia|].
      assert (0 <= R * (pO * R)) by (apply Z.mul_nonneg_nonneg; lia).
      replace ((pO * R + e * pI) * R) with (R * (pO * R) + R * e * pI) by ring.
      lia. }
  split.
  - apply fromCanonicalScale_nonneg. lia.
  - transitivity (Spec.fromCanonicalScale dOut R).
    + apply fromCanonicalScale_mono. lia.
    + apply from_to_canonical_le. lia.
Qed.

Lemma v2_constant_product_output_bounds_witness :
  0 <= 18140589569160997731 <= v2_reserveOut v2_reference_pool true.
Proof.
  apply (v2_constant_product_output_bounds v2_reference_pool true (10 * ether)).
  - repeat split; vm_compute; discriminate.
  - reflexivity.
  - vm_compute. reflexivity.
Defined.

Lemma canonicalIn_constant_product_bound (fee a R pI pO e : Z) :
  0 <= fee -> 0 <= a < R -> 0 < pI -> 0 <= pO -> 0 <= e ->
  e * (10 ^ 8 + fee) <= Spec.canonicalIn (2 * V2.Q64) fee a R pI pO * 10 ^ 8 ->
  e * pI * (R - a) <= a * pO * R.
Proof.
  intros Hf Ha HpI HpO He Hfee. pose proof Q64_pos as HQ.
  unfold Spec.canonicalIn, Spec.mulDivFloor in Hfee.
  change (10 ^ 8) with 100000000 in Hfee.
  set (d := R - a) in *. assert (Hd : 0 < d) by (subst d; lia).
  set (imp := 2 * V2.Q64 * V2.Q64 * a / (V2.Q64 * d)) in *.
  set (inner := pO * (imp + 2 * V2.Q64) / pI) in *.
  set (ai := a * inner / (2 * V2.Q64)) in *.
  assert (Himp0 : 0 <= imp).
  { subst imp. apply Z.div_pos; [|nia].
    repeat apply Z.mul_nonneg_nonneg; lia. }
  assert (Hinner0 : 0 <= inner).
  { subst inner. apply Z.div_pos; [|lia]. apply Z.mul_nonneg_nonneg; lia. }
  assert (Hai0 : 0 <= ai).
  { subst ai. apply Z.div_pos; [|lia]. apply Z.mul_nonneg_nonneg; lia. }
  assert (H1 : imp * d <= 2 * V2.Q64 * a).
  { pose proof (Z.mul_div_le (2 * V2.Q64 * V2.Q64 * a) (V2.Q64 * d)
                  ltac:(apply Z.mul_pos_pos; lia)) as Hm.
    fold imp in Hm.
    apply (Z.mul_le_mono_pos_l _ _ V2.Q64 HQ).
    replace (V2.Q64 * (imp * d)) with (V2.Q64 * d * imp) by ring.
    replace (V2.Q64 * (2 * V2.Q64 * a)) with (2 * V2.Q64 * V2.Q64 * a) by ring.
    exact Hm. }
  assert (H2 : inner * pI <= pO * (imp + 2 * V2.Q64)).
  { pose proof (Z.mul_div_le (pO * (imp + 2 * V2.Q64)) pI HpI) as Hm.
    fold inner in Hm. lia. }
  assert (H3 : ai * (2 * V2.Q64) <= a * inner).
  { pose proof (Z.mul_div_le (a * inner) (2 * V2.Q64) ltac:(lia)) as Hm.
    fold ai in Hm. lia. }
  assert (H4 : e <= ai).
  { pose proof (Z.mul_div_le (ai * (100000000 + fee)) 100000000 ltac:(lia)) as Hm.
    assert (e * (100000000 + fee) <= ai * (100000000 + fee)) by lia.
    apply (Z.mul_le_mono_pos_r _ _ (100000000 + fee)); lia. }
  assert (S0 : e * pI * d <= ai * pI * d).
  { apply Z.mul_le_mono_nonneg_r; [lia|]. apply Z.mul_le_mono_nonneg_r; lia. }
  assert (S1 : ai * (2 * V2.Q64) * (pI * d) <= a * inner * (pI * d)).
  { apply Z.mul_le_mono_nonneg_r; [|exact H3]. apply Z.mul_nonneg_nonneg; lia. }
  assert (S2 : inner * pI * (a * d) <= pO * (imp + 2 * V2.Q64) * (a * d)).
  { apply Z.mul_le_mono_nonneg_r; [|exact H2]. apply Z.mul_nonneg_nonneg; lia. }
  assert (S3 : imp * d * (a * pO) <= 2 * V2.Q64 * a * (a * pO)).
  { apply Z.mul_le_mono_nonneg_r; [|exact H1]. apply Z.mul_nonneg_nonneg; lia. }
  assert (S4 : 2 * V2.Q64 * (ai * pI * d) <= 2 * V2.Q64 * (a * pO * R)).
  { replace (2 * V2.Q64 * (ai * pI * d)) with (ai * (2 * V2.Q64) * (pI * d)) by ring.
    replace (a * inner * (pI * d)) with (inner * pI * (a * d)) in S1 by ring.
    replace (pO * (imp + 2 * V2.Q64) * (a * d))
      with (imp * d * (a * pO) + 2 * V2.Q64 * (a * pO * d)) in S2 by ring.
    replace (2 * V2.Q64 * (a * pO * R))
      with (2 * V2.Q64 * a * (a * pO) + 2 * V2.Q64 * (a * pO * d))
      by (subst d; ring).
    lia. }
  apply Z.mul_le_mono_pos_l in S4; lia.
Qed.

(** In the constant-product case, on a pool with non-negative fields:
    when [swapExactOutput] quotes an input for an amount, [swapExactInput]
    of that input never returns more than the amount (rounding is downward
    in both quotes). *)
Theorem v2_constant_product_round_trip (pool : V2.BrownFiV2PoolState)
    (zeroToOne : bool) (amountOut amountIn back : Z) :
  wf_v2 pool -> V2.kappa pool = 2 * V2.Q64 ->
  V2.swapExactOutput pool zeroToOne amountOut = Return amountIn ->
  V2.swapExactInput pool zeroToOne amountIn = Return back ->
  back <= amountOut.
Proof.
  intros Hwf Hkappa Hout Hin.
  destruct (v2_swapExactOutput_Return_inv _ _ _ _ Hout) as (Ha & Hr & Hc).
  destruct (v2_constant_product_input_inv _ _ _ _ Hwf Hkappa Hin)
    as (pI & pO & Hskew & HpI & HpO & HaIn & _ & Hd & ->).
  rewrite v2_swapExactOutput_eq in Hout by assumption.
  rewrite Hskew in Hout. cbn [fst snd] in Hout. cbv zeta in Hd.
  destruct (negb (V2.lambda pool =? 0) && _); [discriminate|].
  cbn [orb] in Hout.
  set (dOut := v2_tokenOutDecimals pool zeroToOne) in *.
  set (dIn := v2_tokenInDecimals pool zeroToOne) in *.
  set (R := Spec.toCanonicalScale dOut (v2_reserveOut pool zeroToOne)) in *.
  set (a := Spec.toCanonicalScale dOut amountOut) in *.
  destruct (Z.eqb_spec (V2.Q64 * (R - a)) 0) as [|HRa]; [discriminate|].
  cbn [orb] in Hout.
  destruct (Z.eqb_spec pI 0) as [|HpI0]; [discriminate|].
  apply Return_inj in Hout. unfold v2_quoteByOutput_spec in Hout.
  fold dIn dOut R a in Hout. rewrite Hkappa in Hout.
  destruct Hwf as (_ & _ & _ & _ & _ & _ & Hf).
  set (ai := Spec.canonicalIn (2 * V2.Q64) (V2.fee pool) a R pI pO) in *.
  set (e := Spec.mulDivFloor (Spec.toCanonicalScale dIn amountIn) (10 ^ 8)
              (10 ^ 8 + V2.fee pool)) in *.
  assert (Ha0 : 0 <= a) by (apply toCanonicalScale_nonneg; lia).
  assert (HaR : a < R).
  { pose proof (toCanonicalScale_mono dOut amountOut (v2_reserveOut pool zeroToOne)
                  ltac:(lia)) as Hm. fold a R in Hm.
    destruct (Z.eq_dec a R) as [Heq|]; [|lia].
    rewrite Heq, Z.sub_diag, Z.mul_0_r in HRa. contradiction. }
  assert (Hai0 : 0 <= ai).
  { subst ai. unfold Spec.canonicalIn, Spec.mulDivFloor.
    change (10 ^ 8) with 100000000. pose proof Q64_pos as HQ.
    apply Z.div_pos; [|lia]. apply Z.mul_nonneg_nonneg; [|lia].
    apply Z.div_pos; [|lia]. apply Z.mul_nonneg_nonneg; [lia|].
    apply Z.div_pos; [|lia]. apply Z.mul_nonneg_nonneg; [lia|].
    assert (0 <= 2 * V2.Q64 * V2.Q64 * a / (V2.Q64 * (R - a))); [|lia].
    apply Z.div_pos; [|nia]. repeat apply Z.mul_nonneg_nonneg; lia. }
  assert (Hc0 : 0 <= Spec.toCanonicalScale dIn amountIn <= ai).
  { split; [apply toCanonicalScale_nonneg; lia|].
    rewrite <- Hout. now apply to_from_canonical_le. }
  assert (He : 0 <= e /\ e * (10 ^ 8 + V2.fee pool) <= ai * 10 ^ 8).
  { subst e. unfold Spec.mulDivFloor. change (10 ^ 8) with 100000000.
    pose proof (Z.mul_div_le (Spec.toCanonicalScale dIn amountIn * 100000000)
                  (100000000 + V2.fee pool) ltac:(lia)).
    split; [apply Z.div_pos; lia | lia]. }
  destruct He as [He0 He].
  pose proof (canonicalIn_constant_product_bound (V2.fee pool) a R pI pO e
                Hf ltac:(lia) ltac:(lia) HpO He0 He) as Hbound.
  assert (Hq : Spec.mulDivFloor (R * e) pI (pO * R + e * pI) <= a).
  { unfold Spec.mulDivFloor. apply Z.div_le_upper_bound; [lia|].
    replace (e * pI * (R - a)) with (R * e * pI - a * (e * pI)) in Hbound by ring.
    replace ((pO * R + e * pI) * a) with (a * pO * R + a * (e * pI)) by ring.
    lia. }
  transitivity (Spec.fromCanonicalScale dOut a).
  - now apply fromCanonicalScale_mono.
  - apply from_to_canonical_le. lia.
Qed.

Lemma v2_constant_product_round_trip_witness :
  9999999999999999997 <= 10 * ether.
Proof.
  apply (v2_constant_product_round_trip v2_reference_pool true (10 * ether)
           5276315789473684210 9999999999999999997).
  - repeat split; vm_compute; discriminate.
  - reflexivity.
  - vm_compute. reflexivity.
  - vm_compute. reflexivity.
Defined.

(** ** V1: the quote against the oracle price *)

(** With [0 <= fee < 10000], a non-negative [kappa] and a positive oracle
    price, a returned V1 [swapExactOutput] quote is positive and never better
    than the oracle price: [amountOut * Q128 <= amountIn * oraclePrice] for
    direction zeroToOne, [amountOut * oraclePrice <= amountIn * Q128] for
    oneToZero. *)
Theorem v1_quote_no_better_than_oracle (pool : V1.BrownFiPoolState)
    (zeroToOne : bool) (amountOut amountIn : Z) :
  0 <= V1.fee pool < 10000 -> 0 <= V1.kappa pool -> 0 < V1.oraclePrice pool ->
  V1.swapExactOutput pool zeroToOne amountOut = Return amountIn ->
  0 < amountIn /\
  (if zeroToOne
   then amountOut * V1.Q128 <= amountIn * V1.oraclePrice pool
   else amountOut * V1.oraclePrice pool <= amountIn * V1.Q128).
Proof.
  intros Hfee Hk HP Hret. pose proof Q128_pos as HQ.
  destruct (v1_swapExactOutput_Return_inv pool zeroToOne (proj2 Hfee) ltac:(lia)
              amountOut amountIn Hret) as (Ha & Hin & Hout & Hcap & _).
  rewrite v1_swapExactOutput_eq in Hret by (try assumption; lia).
  apply Return_inj in Hret. subst amountIn. unfold v1_quoteByOutput_spec.
  assert (Hw : amountOut <= v1_amountOutWithFee pool amountOut).
  { unfold v1_amountOutWithFee.
    pose proof (mulDivCeil_spec amountOut 10000 (10000 - V1.fee pool) ltac:(lia))
      as [_ Hhi].
    assert (0 <= Spec.mulDivCeil amountOut 10000 (10000 - V1.fee pool))
      by (apply mulDivCeil_nonneg; lia).
    nia. }
  set (w := v1_amountOutWithFee pool amountOut) in *.
  set (rO := v1_reserveOut pool zeroToOne) in *.
  set (k := if V1.kappa pool =? 0 then V1.Q128 else V1.kappa pool).
  assert (Hk' : 0 <= k) by (subst k; destruct (V1.kappa pool =? 0); lia).
  assert (Hr : 0 <= Spec.mulDivCeil k w (rO - w))
    by (apply mulDivCeil_nonneg; [lia | apply Z.mul_nonneg_nonneg; lia]).
  set (r := Spec.mulDivCeil k w (rO - w)) in *.
  set (P := V1.oraclePrice pool) in *. set (Q := V1.Q128) in *.
  destruct zeroToOne.
  - pose proof (mulDivCeil_spec (2 * Q + r) Q (P * 2) ltac:(lia)) as [_ Hav].
    set (avg := Spec.mulDivCeil (2 * Q + r) Q (P * 2)) in *.
    pose proof (mulDivCeil_spec w avg Q HQ) as [_ Hres].
    set (res := Spec.mulDivCeil w avg Q) in *.
    assert (Havg : Q * Q <= P * avg).
    { assert (2 * Q * Q <= (2 * Q + r) * Q)
        by (apply Z.mul_le_mono_nonneg_r; lia). lia. }
    assert (S1 : w * (Q * Q) <= w * (P * avg))
      by (apply Z.mul_le_mono_nonneg_l; lia).
    assert (S2 : P * (w * avg) <= P * (Q * res))
      by (apply Z.mul_le_mono_nonneg_l; lia).
    assert (S3 : Q * (w * Q) <= Q * (res * P)).
    { replace (Q * (w * Q)) with (w * (Q * Q)) by ring.
      replace (Q * (res * P)) with (P * (Q * res)) by ring.
      replace (w * (P * avg)) with (P * (w * avg)) in S1 by ring. lia. }
    apply Z.mul_le_mono_pos_l in S3; [|assumption].
    assert (S4 : amountOut * Q <= w * Q) by (apply Z.mul_le_mono_nonneg_r; lia).
    split; [|lia].
    assert (0 < amountOut * Q) by (apply Z.mul_pos_pos; lia).
    destruct (Z_le_gt_dec res 0); [|lia].
    assert (res * P <= 0) by (apply Z.mul_nonpos_nonneg; lia). lia.
  - pose proof (mulDivCeil_spec P (2 * Q + r) (2 * Q) ltac:(lia)) as [_ Hav].
    set (avg := Spec.mulDivCeil P (2 * Q + r) (2 * Q)) in *.
    pose proof (mulDivCeil_spec w avg Q HQ) as [_ Hres].
    set (res := Spec.mulDivCeil w avg Q) in *.
    assert (Havg : P <= avg).
    { assert (P * (2 * Q) <= P * (2 * Q + r))
        by (apply Z.mul_le_mono_nonneg_l; lia).
      assert (Hm : 2 * Q * P <= 2 * Q * avg) by lia.
      apply Z.mul_le_mono_pos_l in Hm; lia. }
    assert (S1 : w * P <= w * avg) by (apply Z.mul_le_mono_nonneg_l; lia).
    assert (S4 : amountOut * P <= w * P) by (apply Z.mul_le_mono_nonneg_r; lia).
    split; [|lia].
    assert (0 < amountOut * P) by (apply Z.mul_pos_pos; lia).
    destruct (Z_le_gt_dec res 0); [|lia].
    assert (Q * res <= 0) by (apply Z.mul_nonneg_nonpos; lia). lia.
Qed.

Lemma v1_quote_no_better_than_oracle_witness :
  0 < 5277044854881266492 /\
  10 * ether * V1.Q128 <= 5277044854881266492 * V1.oraclePrice v1_reference_pool.
Proof.
  apply (v1_quote_no_better_than_oracle v1_reference_pool true (10 * ether)
           5277044854881266492).
  - split; vm_compute; [discriminate | reflexivity].
  - vm_compute. discriminate.
  - vm_compute. reflexivity.
  - vm_compute. reflexivity.
Defined.

(** * The V2 state provider *)

Lemma get_set_same (pools : Provider.Pools) (key : string)
    (value : V2.BrownFiV2PoolState) :
  Provider.get (Provider.set pools key value) key = Some value.
Proof.
  induction pools as [|[key' value'] rest IH]; cbn [Provider.set Provider.get].
  - now rewrite String.eqb_refl.
  - destruct (String.eqb key' key) eqn:E; cbn [Provider.get]; rewrite E;
      [reflexivity | exact IH].
Qed.

Lemma get_set_other (pools : Provider.Pools) (key other : string)
    (value : V2.BrownFiV2PoolState) :
  other <> key ->
  Provider.get (Provider.set pools key value) other = Provider.get pools other.
Proof.
  intros Hne.
  induction pools as [|[key' value'] rest IH]; cbn [Provider.set Provider.get].
  - replace (String.eqb key other) with false; [reflexivity|].
    symmetry. apply String.eqb_neq. congruence.
  - destruct (String.eqb key' key) eqn:E; cbn [Provider.get].
    + apply String.eqb_eq in E. subst key'.
      replace (String.eqb key other) with false; [reflexivity|].
      symmetry. apply String.eqb_neq. congruence.
    + now rewrite IH.
Qed.

Lemma set_keys_when_present (pools : Provider.Pools) (key : string)
    (old value : V2.BrownFiV2PoolState) :
  Provider.get pools key = Some old ->
  map fst (Provider.set pools key value) = map fst pools.
Proof.
  induction pools as [|[key' value'] rest IH]; cbn [Provider.set Provider.get];
    [discriminate|].
  destruct (String.eqb key' key); intros Hget; cbn [map fst];
    [reflexivity | now rewrite IH].
Qed.

Lemma set_set (pools : Provider.Pools) (key : string)
    (value value' : V2.BrownFiV2PoolState) :
  Provider.set (Provider.set pools key value) key value'
  = Provider.set pools key value'.
Proof.
  induction pools as [|[key' old] rest IH]; cbn [Provider.set].
  - now rewrite String.eqb_refl.
  - destruct (String.eqb key' key) eqn:E; cbn [Provider.set]; rewrite E;
      [reflexivity | now rewrite IH].
Qed.

Lemma getPool_prices (multicall : string -> Provider.PoolReads) (pool : string) :
  V2.price0 (Provider.getPool multicall pool) = 0 /\
  V2.price1 (Provider.getPool multicall pool) = 0.
Proof. split; reflexivity. Qed.

Lemma v2_unpriced_never_returns (pool : V2.BrownFiV2PoolState)
    (zeroToOne : bool) (amount : Z) :
  V2.price0 pool = 0 -> V2.price1 pool = 0 ->
  (exists e, V2.swapExactInput pool zeroToOne amount = Throw e) /\
  (exists e, V2.swapExactOutput pool zeroToOne amount = Throw e).
Proof.
  intros H0 H1.
  destruct (Z_le_gt_dec amount 0) as [Ha|Ha].
  - split; eexists.
    + unfold V2.swapExactInput. ztest. reflexivity.
    + unfold V2.swapExactOutput. ztest. reflexivity.
  - destruct (Z_le_gt_dec (v2_reserveOut pool zeroToOne) 0) as [Hr|Hr].
    + split; eexists.
      * apply v2_swapExactInput_liquidity; lia.
      * apply v2_swapExactOutput_liquidity; lia.
    + destruct (v2_unpriced_range_error pool zeroToOne amount H0 H1
                  ltac:(lia) ltac:(lia)) as [Hin Hout].
      split; [eexists; exact Hin|].
      destruct (Z_le_gt_dec (v2_reserveOut pool zeroToOne * 8) (amount * 10)).
      * eexists. apply v2_swapExactOutput_cap; lia.
      * eexists. apply Hout. lia.
Qed.

(** A pool state as [getPool] builds it carries zero prices, so neither
    [swapExactInput] nor [swapExactOutput] returns a quote on it, whatever
    the chain answered, the direction and the amount: every call raises. *)
Theorem getPool_cannot_be_quoted (multicall : string -> Provider.PoolReads)
    (address : string) (zeroToOne : bool) (amount : Z) :
  (exists e, V2.swapExactInput (Provider.getPool multicall address) zeroToOne amount
             = Throw e) /\
  (exists e, V2.swapExactOutput (Provider.getPool multicall address) zeroToOne amount
             = Throw e).
Proof.
  apply v2_unpriced_never_returns; apply getPool_prices.
Qed.

(** When the [getReserves] read fails, [getPool] defaults both reserves to
    zero and every quote of a positive amount raises INSUFFICIENT_LIQUIDITY,
    in both directions. *)
Theorem getPool_without_reserves (multicall : string -> Provider.PoolReads)
    (address : string) (zeroToOne : bool) (amount : Z) :
  Provider.getReserves (multicall address) = None ->
  0 < amount ->
  V2.swapExactInput (Provider.getPool multicall address) zeroToOne amount
    = Throw V2.INSUFFICIENT_LIQUIDITY /\
  V2.swapExactOutput (Provider.getPool multicall address) zeroToOne amount
    = Throw V2.INSUFFICIENT_LIQUIDITY.
Proof.
  intros Hreads Ha.
  assert (Hr : v2_reserveOut (Provider.getPool multicall address) zeroToOne <= 0).
  { unfold v2_reserveOut, Provider.getPool.
    cbn [V2.reserve0 V2.reserve1]. rewrite Hreads.
    destruct zeroToOne; cbn; lia. }
  split.
  - now apply v2_swapExactInput_liquidity.
  - now apply v2_swapExactOutput_liquidity.
Qed.

Lemma getPool_without_reserves_witness :
  V2.swapExactInput
    (Provider.getPool
       (fun _ => {| Provider.token0 := None; Provider.token1 := None;
                    Provider.getReserves := None; Provider.k := Some V2.Q64;
                    Provider.lambda := None; Provider.fee := Some 250000;
                    Provider.token0Decimals := None;
                    Provider.token1Decimals := Some 6 |})
       zeroAddress) true 1
  = Throw V2.INSUFFICIENT_LIQUIDITY.
Proof.
  refine (proj1 (getPool_without_reserves _ zeroAddress true 1 _ _));
    [reflexivity | lia].
Defined.

(** A Sync log for a tracked pool stores the state with the two reserves of
    the log and every other field as it was; for an untracked address it
    changes nothing.  Either way no other pool changes and the tracked
    addresses and their order stay the same. *)
Theorem handleEvent_Sync (multicall : string -> Provider.PoolReads)
    (pools : Provider.Pools) (log : Provider.Log) (address : string)
    (reserve0 reserve1 : Z) :
  Provider.log_address log = Some address -> address <> "" ->
  Provider.log_event log = Provider.Sync reserve0 reserve1 ->
  (Provider.get pools address = None ->
   Provider.handleEvent multicall pools log = pools)
  /\
  (forall poolState,
     Provider.get pools address = Some poolState ->
     Provider.get (Provider.handleEvent multicall pools log) address
       = Some (Provider.setReserves poolState reserve0 reserve1))
  /\
  (forall other, other <> address ->
     Provider.get (Provider.handleEvent multicall pools log) other
       = Provider.get pools other)
  /\
  map fst (Provider.handleEvent multicall pools log) = map fst pools.
Proof.
  intros Haddr Hne Hev. unfold Provider.handleEvent, Provider.noAddress.
  rewrite Haddr, Hev. cbn [Provider.nullish].
  replace (String.eqb address "") with false
    by (symmetry; now apply String.eqb_neq).
  destruct (Provider.get pools address) as [poolState|] eqn:Hget.
  - split; [discriminate|]. split; [|split].
    + intros st Hst. injection Hst as <-. apply get_set_same.
    + intros other Hother. now apply get_set_other.
    + now apply (set_keys_when_present pools address poolState).
  - repeat split; try reflexivity. discriminate.
Qed.

Lemma handleEvent_Sync_witness :
  Provider.get
    (Provider.handleEvent (fun _ => Provider.Build_PoolReads None None None None
                                      None None None None)
       (("0xpool", v2_reference_pool) :: nil)
       {| Provider.log_address := Some "0xpool";
          Provider.log_event := Provider.Sync 7 9 |})
    "0xpool"
  = Some (Provider.setReserves v2_reference_pool 7 9).
Proof.
  refine (proj1 (proj2 (handleEvent_Sync _ (("0xpool", v2_reference_pool) :: nil)
                          {| Provider.log_address := Some "0xpool";
                             Provider.log_event := Provider.Sync 7 9 |}
                          "0xpool" 7 9 eq_refl _ eq_refl))
            v2_reference_pool eq_refl).
  discriminate.
Defined.

(** Of two Sync logs for the same pool only the later one counts: handling
    both leaves the pools as handling the later one alone does. *)
Theorem handleEvent_Sync_last_wins (multicall : string -> Provider.PoolReads)
    (pools : Provider.Pools) (address : string) (r0 r1 r0' r1' : Z) :
  address <> "" ->
  Provider.handleEvent multicall
    (Provider.handleEvent multicall pools
       {| Provider.log_address := Some address;
          Provider.log_event := Provider.Sync r0 r1 |})
    {| Provider.log_address := Some address;
       Provider.log_event := Provider.Sync r0' r1' |}
  = Provider.handleEvent multicall pools
      {| Provider.log_address := Some address;
         Provider.log_event := Provider.Sync r0' r1' |}.
Proof.
  intros Hne. unfold Provider.handleEvent, Provider.noAddress.
  cbn [Provider.log_address Provider.log_event Provider.nullish].
  replace (String.eqb address "") with false
    by (symmetry; now apply String.eqb_neq).
  destruct (Provider.get pools address) as [poolState|] eqn:Hget.
  - rewrite get_set_same, set_set. reflexivity.
  - rewrite Hget. reflexivity.
Qed.

Lemma handleEvent_Sync_last_wins_witness :
  Provider.handleEvent (fun _ => Provider.Build_PoolReads None None None None
                                   None None None None)
    (Provider.handleEvent (fun _ => Provider.Build_PoolReads None None None None
                                      None None None None)
       (("0xpool", v2_reference_pool) :: nil)
       {| Provider.log_address := Some "0xpool";
          Provider.log_event := Provider.Sync 1 2 |})
    {| Provider.log_address := Some "0xpool";
       Provider.log_event := Provider.Sync 7 9 |}
  = Provider.handleEvent (fun _ => Provider.Build_PoolReads None None None None
                                     None None None None)
      (("0xpool", v2_reference_pool) :: nil)
      {| Provider.log_address := Some "0xpool";
         Provider.log_event := Provider.Sync 7 9 |}.
Proof.
  apply (handleEvent_Sync_last_wins _ (("0xpool", v2_reference_pool) :: nil) "0xpool").
  discriminate.
Defined.

(** A PairCreated log stores the state [getPool] builds for the pair,
    replacing any state tracked for it and leaving the other pools alone; the
    stored state has zero prices, so no quote returns on it. *)
Theorem handleEvent_PairCreated (multicall : string -> Provider.PoolReads)
    (pools : Provider.Pools) (log : Provider.Log) (address token0 token1 pair : string) :
  Provider.log_address log = Some address -> address <> "" ->
  Provider.log_event log = Provider.PairCreated token0 token1 pair ->
  Provider.get (Provider.handleEvent multicall pools log) pair
    = Some (Provider.getPool multicall pair)
  /\
  (forall other, other <> pair ->
     Provider.get (Provider.handleEvent multicall pools log) other
       = Provider.get pools other)
  /\
  (forall poolState zeroToOne amount,
     Provider.get (Provider.handleEvent multicall pools log) pair = Some poolState ->
     (exists e, V2.swapExactInput poolState zeroToOne amount = Throw e) /\
     (exists e, V2.swapExactOutput poolState zeroToOne amount = Throw e)).
Proof.
  intros Haddr Hne Hev. unfold Provider.handleEvent, Provider.noAddress.
  rewrite Haddr, Hev.
  replace (String.eqb address "") with false
    by (symmetry; now apply String.eqb_neq).
  cbv zeta. split; [apply get_set_same|]. split.
  - intros other Hother. now apply get_set_other.
  - intros poolState z amount Hget. rewrite get_set_same in Hget.
    injection Hget as <-.
    apply v2_unpriced_never_returns; apply getPool_prices.
Qed.

Lemma handleEvent_PairCreated_witness :
  Provider.get
    (Provider.handleEvent (fun _ => Provider.Build_PoolReads None None None None
                                      None None None None)
       (("0xpool", v2_reference_pool) :: nil)
       {| Provider.log_address := Some "0xfactory";
          Provider.log_event := Provider.PairCreated "0xa" "0xb" "0xpool" |})
    "0xpool"
  = Some (Provider.getPool (fun _ => Provider.Build_PoolReads None None None None
                                       None None None None) "0xpool").
Proof.
  refine (proj1 (handleEvent_PairCreated _ (("0xpool", v2_reference_pool) :: nil)
                   {| Provider.log_address := Some "0xfactory";
                      Provider.log_event := Provider.PairCreated "0xa" "0xb" "0xpool" |}
                   "0xfactory" "0xa" "0xb" "0xpool" eq_refl _ eq_refl)).
  discriminate.
Defined.
